(** * Chat session reconciliation, read receipts, send path and reactions

    A shallow embedding of the logic of [src/app/chat.tsx]: the merge of the
    locally cached message list with a live snapshot, the send path with its
    conversation-summary update, the read-receipt marker and the reaction
    update.  JavaScript objects used as dictionaries are finite maps, arrays
    are lists, and the calls to the document store are commands of a small
    state-and-exception monad. *)

From Stdlib Require Import Ascii String.
From stdpp Require Import gmap strings list fin_maps sorting pretty.

Open Scope string_scope.
Open Scope nat_scope.
Open Scope list_scope.
Open Scope stdpp_scope.

(** ** Data model (interfaces [Message] and [ChatRoomData]) *)

Abbreviation reactionMap := (gmap string (list string)).

Record Message := {
  id : string;
  text : string;
  senderId : string;
  senderEmail : option string;
  timestamp : nat;
  read : bool;
  reactions : option reactionMap;
}.

Definition ids (l : list Message) : list string := id <$> l.

(** A message without e-mail address and without reactions. *)
Definition plainMessage (i t s : string) (ts : nat) (r : bool) : Message :=
  {| id := i; text := t; senderId := s; senderEmail := None;
     timestamp := ts; read := r; reactions := None |}.

(** [Array.prototype.indexOf] on an array of strings: the index of the first
    element strictly equal to [x]; [None] stands for [-1]. *)
Fixpoint indexOf (x : string) (l : list string) : option nat :=
  match l with
  | [] => None
  | y :: l' => if String.eqb y x then Some 0 else S <$> indexOf x l'
  end.

(** ** The reconciler: the [onSnapshot] callback of the first effect *)

Module Reconciler.

(** [Array.prototype.findIndex]: the index of the first element that
    satisfies the predicate; [None] stands for the source's [-1]. *)
Fixpoint findIndex (p : Message → bool) (l : list Message) : option nat :=
  match l with
  | [] => None
  | m :: l' => if p m then Some 0 else S <$> findIndex p l'
  end.

Definition sameId (newMsg m : Message) : bool := String.eqb (id m) (id newMsg).

(** The body of [messageList.forEach((newMsg) => ...)]. *)
Definition mergeStep (mergedMessages : list Message) (newMsg : Message)
  : list Message :=
  match findIndex (sameId newMsg) mergedMessages with
  | None => mergedMessages ++ [newMsg]
  | Some existingIndex => <[existingIndex := newMsg]> mergedMessages
  end.

Definition mergeLoop (localMessages messageList : list Message) : list Message :=
  foldl mergeStep localMessages messageList.

(** The list handed to [setMessages]: the merge when the local list is
    non-empty, the snapshot as it is otherwise. *)
Definition mergedMessages (localMessages messageList : list Message)
  : list Message :=
  if 0 <? length localMessages then mergeLoop localMessages messageList
  else messageList.

(** What the callback asks of the screen. *)
Inductive UiEffect :=
  | SetMessages (l : list Message)
  | SetLoading (b : bool)
  | ScrollToEnd.

Definition onSnapshot (localMessages messageList : list Message)
  : list UiEffect :=
  [SetMessages (mergedMessages localMessages messageList); SetLoading false]
  ++ (if 0 <? length messageList then [ScrollToEnd] else []).

Definition isScroll (e : UiEffect) : bool :=
  match e with ScrollToEnd => true | _ => false end.

Definition scrollIssued (es : list UiEffect) : bool := existsb isScroll es.

(** How often an identifier occurs in a list of messages. *)
Definition countId (i : string) (l : list Message) : nat :=
  length (filter (λ m, id m = i) l).

(** Ascending send time. *)
Fixpoint sortedByTime (l : list Message) : bool :=
  match l with
  | m :: (m' :: _) as l' => (timestamp m <=? timestamp m') && sortedByTime l'
  | _ => true
  end.

(** Sample data: a cached list holding the second message of a
    conversation, in a stale copy, and a later message; the live snapshot
    with the first two messages. *)
Definition cachedList : list Message :=
  [plainMessage "m2" "hello" "alice" 20 false; plainMessage "m9" "bye" "bob" 90 true].
Definition liveSnapshot : list Message :=
  [plainMessage "m1" "hi" "alice" 10 true; plainMessage "m2" "hello" "alice" 20 true].

End Reconciler.

(** ** JavaScript strings: truthiness and [String.prototype.trim] *)

Module Js.

(** A string is falsy exactly when it is empty. *)
Definition truthy (s : string) : bool := negb (String.eqb s "").

(** Strings hold UTF-8 text.  [trim] removes white space and line
    terminators from both ends: TAB, LF, VT, FF, CR and SPACE take one
    byte, U+00A0 two, and U+1680, U+2000 to U+200A, U+2028, U+2029, U+202F,
    U+205F, U+3000 and U+FEFF three. *)
Definition isSpace1 (b : N) : bool :=
  ((9 <=? b) && (b <=? 13) || (b =? 32))%N.

Definition isSpace2 (b1 b2 : N) : bool :=
  ((b1 =? 194) && (b2 =? 160))%N.

Definition isSpace3 (b1 b2 b3 : N) : bool :=
  ((b1 =? 225) && (b2 =? 154) && (b3 =? 128)
   || (b1 =? 226) && (b2 =? 128)
      && ((128 <=? b3) && (b3 <=? 138) || (b3 =? 168) || (b3 =? 169) || (b3 =? 175))
   || (b1 =? 226) && (b2 =? 129) && (b3 =? 159)
   || (b1 =? 227) && (b2 =? 128) && (b3 =? 128)
   || (b1 =? 239) && (b2 =? 187) && (b3 =? 191))%N.

Fixpoint trimStartBytes (s : list N) : list N :=
  match s with
  | [] => []
  | b1 :: s1 =>
    if isSpace1 b1 then trimStartBytes s1 else
    match s1 with
    | [] => s
    | b2 :: s2 =>
      if isSpace2 b1 b2 then trimStartBytes s2 else
      match s2 with
      | [] => s
      | b3 :: s3 => if isSpace3 b1 b2 b3 then trimStartBytes s3 else s
      end
    end
  end.

(** The same scan on the reversed text: a multi-byte space is met last
    byte first. *)
Fixpoint trimEndReversed (s : list N) : list N :=
  match s with
  | [] => []
  | b1 :: s1 =>
    if isSpace1 b1 then trimEndReversed s1 else
    match s1 with
    | [] => s
    | b2 :: s2 =>
      if isSpace2 b2 b1 then trimEndReversed s2 else
      match s2 with
      | [] => s
      | b3 :: s3 => if isSpace3 b3 b2 b1 then trimEndReversed s3 else s
      end
    end
  end.

Definition bytesOf (s : string) : list N := N_of_ascii <$> list_ascii_of_string s.
Definition stringOf (l : list N) : string := string_of_list_ascii (ascii_of_N <$> l).

Definition trim (s : string) : string :=
  stringOf (rev (trimEndReversed (rev (trimStartBytes (bytesOf s))))).

End Js.

(** ** The conversation record *)

Module LastMessage.
Record t := {
  text : string;
  timestamp : nat;
  senderId : string;
  senderEmail : option string;
  read : bool;
}.
Definition setRead (b : bool) (l : t) : t :=
  {| text := text l; timestamp := timestamp l; senderId := senderId l;
     senderEmail := senderEmail l; read := b |}.
End LastMessage.

Record ChatRoomData := {
  participants : list string;
  lastMessage : option LastMessage.t;
  unreadCount : option (gmap string nat);
  createdAt : nat;
}.

Definition setLastMessage (l : option LastMessage.t) (d : ChatRoomData) : ChatRoomData :=
  {| participants := participants d; lastMessage := l;
     unreadCount := unreadCount d; createdAt := createdAt d |}.

Definition setUnreadCount (u : option (gmap string nat)) (d : ChatRoomData) : ChatRoomData :=
  {| participants := participants d; lastMessage := lastMessage d;
     unreadCount := u; createdAt := createdAt d |}.

(** [{ ...m }] for a possibly missing map [m]. *)
Definition spread (u : option (gmap string nat)) : gmap string nat := default ∅ u.

(** [chatRoomData.unreadCount?.[userId] || 0] *)
Definition unreadOf (d : ChatRoomData) (userId : string) : nat :=
  default 0 (unreadCount d ≫= λ u, u !! userId).

Definition setRead (b : bool) (m : Message) : Message :=
  {| id := id m; text := text m; senderId := senderId m;
     senderEmail := senderEmail m; timestamp := timestamp m; read := b;
     reactions := reactions m |}.

Definition setReactions (r : option reactionMap) (m : Message) : Message :=
  {| id := id m; text := text m; senderId := senderId m;
     senderEmail := senderEmail m; timestamp := timestamp m; read := read m;
     reactions := r |}.

(** ** The document store, the screen and the commands between them

    One conversation is in view: [chatRoomDoc] is the document at
    [chatRooms/chatId] and [messageDocs] its [messages] collection, in
    creation order.  [serverTime] is what [serverTimestamp()] resolves to
    when a write is committed. *)

Record Backend := {
  chatRoomDoc : option ChatRoomData;
  messageDocs : list Message;
  serverTime : nat;
}.

(** The React state of the chat screen. *)
Record Screen := {
  message : string;
  messages : list Message;
  loading : bool;
  sending : bool;
}.

(** The requests sent to the store, as they appear on the wire. *)
Inductive Request :=
  | GetChatRoom
  | SetChatRoom
  | UpdateChatRoom
  | AddMessage
  | GetMessage (messageId : string)
  | UpdateMessage (messageId : string)
  | CommitBatch (messageIds : list string).

(** [faults] is the fate of the coming requests: the head decides whether
    the next request is rejected; an exhausted plan rejects nothing.
    [trace] records the requests issued, [errorLog] the calls of
    [console.error]. *)
Record World := {
  backend : Backend;
  screen : Screen;
  faults : list bool;
  trace : list Request;
  errorLog : list string;
}.

Definition withBackend (f : Backend → Backend) (w : World) : World :=
  {| backend := f (backend w); screen := screen w; faults := faults w;
     trace := trace w; errorLog := errorLog w |}.

Definition withScreen (f : Screen → Screen) (w : World) : World :=
  {| backend := backend w; screen := f (screen w); faults := faults w;
     trace := trace w; errorLog := errorLog w |}.

Inductive Outcome (A : Type) :=
  | Returned (a : A)
  | Thrown (error : string).
Arguments Returned {A} a.
Arguments Thrown {A} error.

(** An asynchronous function of the screen, run to completion. *)
Definition Action (A : Type) : Type := World → Outcome A * World.

Global Instance action_ret : MRet Action := λ A a w, (Returned a, w).
Global Instance action_bind : MBind Action := λ A B f m w,
  match m w with
  | (Returned a, w') => f a w'
  | (Thrown e, w') => (Thrown e, w')
  end.

Definition throw {A} (e : string) : Action A := λ w, (Thrown e, w).

(** [try { body } catch (error) { handler(error) }] *)
Definition tryCatch (body : Action unit) (handler : string → Action unit)
  : Action unit := λ w,
  match body w with
  | (Returned a, w') => (Returned a, w')
  | (Thrown e, w') => handler e w'
  end.

(** [try { body } finally { final }] *)
Definition tryFinally (body final : Action unit) : Action unit := λ w,
  match body w with
  | (Returned a, w') => final w'
  | (Thrown e, w') =>
    match final w' with
    | (Returned _, w'') => (Thrown e, w'')
    | (Thrown e', w'') => (Thrown e', w'')
    end
  end.

(** A promise nobody awaits: its rejection reaches no handler. *)
Definition notAwaited (body : Action unit) : Action unit := λ w,
  (Returned (), (body w).2).

Definition consoleError (label : string) : Action unit := λ w,
  (Returned (),
   {| backend := backend w; screen := screen w; faults := faults w;
      trace := trace w; errorLog := errorLog w ++ [label] |}).

Definition setMessage (s : string) : Action unit := λ w,
  (Returned (), withScreen (λ sc,
     {| message := s; messages := messages sc; loading := loading sc;
        sending := sending sc |}) w).

Definition setMessages (l : list Message) : Action unit := λ w,
  (Returned (), withScreen (λ sc,
     {| message := message sc; messages := l; loading := loading sc;
        sending := sending sc |}) w).

Definition setLoading (b : bool) : Action unit := λ w,
  (Returned (), withScreen (λ sc,
     {| message := message sc; messages := messages sc; loading := b;
        sending := sending sc |}) w).

Definition setSending (b : bool) : Action unit := λ w,
  (Returned (), withScreen (λ sc,
     {| message := message sc; messages := messages sc; loading := loading sc;
        sending := b |}) w).

(** Every call of the store is a request: it is recorded, and rejected when
    the plan says so. *)
Definition request (r : Request) : Action unit := λ w,
  let w' := {| backend := backend w; screen := screen w; faults := tail (faults w);
               trace := trace w ++ [r]; errorLog := errorLog w |} in
  match faults w with
  | true :: _ => (Thrown "unavailable", w')
  | _ => (Returned (), w')
  end.

Definition getBackend : Action Backend := λ w, (Returned (backend w), w).
Definition putBackend (b : Backend) : Action unit := λ w,
  (Returned (), withBackend (λ _, b) w).

(** [getDoc(chatRoomRef)]; [None] is a snapshot whose [exists()] is false. *)
Definition getChatRoom : Action (option ChatRoomData) :=
  request GetChatRoom ;; b ← getBackend; mret (chatRoomDoc b).

(** [setDoc(chatRoomRef, data)]; the argument receives the server time. *)
Definition setChatRoom (data : nat → ChatRoomData) : Action unit :=
  request SetChatRoom ;; b ← getBackend;
  putBackend {| chatRoomDoc := Some (data (serverTime b));
                messageDocs := messageDocs b; serverTime := serverTime b |}.

(** [updateDoc(chatRoomRef, fields)]: the listed fields of the stored
    document are overwritten; a missing document is an error. *)
Definition updateChatRoom (fields : nat → ChatRoomData → ChatRoomData)
  : Action unit :=
  request UpdateChatRoom ;; b ← getBackend;
  match chatRoomDoc b with
  | None => throw "not-found"
  | Some d =>
    putBackend {| chatRoomDoc := Some (fields (serverTime b) d);
                  messageDocs := messageDocs b; serverTime := serverTime b |}
  end.

(** [addDoc(messagesRef, data)]: the store picks an identifier that no
    document of the collection has. *)
Definition addMessage (data : nat → string → Message) : Action unit :=
  request AddMessage ;; b ← getBackend;
  putBackend {| chatRoomDoc := chatRoomDoc b;
                messageDocs := messageDocs b
                  ++ [data (serverTime b) (fresh (ids (messageDocs b)))];
                serverTime := serverTime b |}.

Definition findMessage (messageId : string) (docs : list Message) : option Message :=
  head (filter (λ m, id m = messageId) docs).

Definition updateIn (messageId : string) (f : Message → Message)
  (docs : list Message) : list Message :=
  (λ m, if String.eqb (id m) messageId then f m else m) <$> docs.

(** [getDoc(messageRef)] *)
Definition getMessage (messageId : string) : Action (option Message) :=
  request (GetMessage messageId) ;; b ← getBackend;
  mret (findMessage messageId (messageDocs b)).

(** [updateDoc(messageRef, fields)] *)
Definition updateMessage (messageId : string) (fields : Message → Message)
  : Action unit :=
  request (UpdateMessage messageId) ;; b ← getBackend;
  match findMessage messageId (messageDocs b) with
  | None => throw "not-found"
  | Some _ =>
    putBackend {| chatRoomDoc := chatRoomDoc b;
                  messageDocs := updateIn messageId fields (messageDocs b);
                  serverTime := serverTime b |}
  end.

(** [writeBatch(db)], a list of [batch.update(ref, fields)], and
    [batch.commit()]: one request; either every update is applied or, when
    the request is rejected or one of the documents is missing, none. *)
Definition applyBatch (writes : list (string * (Message → Message)))
  (docs : list Message) : list Message :=
  foldl (λ acc w, updateIn w.1 w.2 acc) docs writes.

Definition commitBatch (writes : list (string * (Message → Message)))
  : Action unit :=
  request (CommitBatch (writes.*1)) ;; b ← getBackend;
  if forallb (λ w, bool_decide (w.1 ∈ ids (messageDocs b))) writes
  then putBackend {| chatRoomDoc := chatRoomDoc b;
                     messageDocs := applyBatch writes (messageDocs b);
                     serverTime := serverTime b |}
  else throw "not-found".

(** The query [orderBy('timestamp', 'asc')] over the collection. *)
Definition byTime (m1 m2 : Message) : Prop := timestamp m1 ≤ timestamp m2.

Global Instance byTime_dec : RelDecision byTime.
Proof. intros m1 m2. unfold byTime. apply _. Defined.

Definition queryMessages (b : Backend) : list Message :=
  merge_sort byTime (messageDocs b).

(** [auth.currentUser] *)
Record User := { uid : string; email : option string }.

(** ** The chat screen (first [ChatScreen] of [chat.tsx]) *)

Module ChatScreen.
Section ChatScreen.

(** [auth.currentUser] and the route parameter [userId], the other
    participant. *)
Variable currentUser : option User.
Variable userId : string.

(** [auth.currentUser?.uid] *)
Definition currentUid : option string := uid <$> currentUser.

(** *** [sendMessage] *)

Definition newLastMessage (me : User) (message : string) (ts : nat)
  : LastMessage.t :=
  {| LastMessage.text := Js.trim message; LastMessage.timestamp := ts;
     LastMessage.senderId := uid me; LastMessage.senderEmail := None;
     LastMessage.read := false |}.

(** The document handed to [addDoc]; the store supplies the time and the
    identifier. *)
Definition newMessage (me : User) (message : string) (ts : nat) (newId : string)
  : Message :=
  {| id := newId; text := Js.trim message; senderId := uid me;
     senderEmail := email me; timestamp := ts; read := false;
     reactions := None |}.

(** The [try] block. *)
Definition sendBody (me : User) (message : string) : Action unit :=
  setSending true ;;
  chatRoomDoc ← getChatRoom;
  match chatRoomDoc with
  | None =>
    setChatRoom (λ ts,
      {| participants := [uid me; userId];
         lastMessage := Some (newLastMessage me message ts);
         createdAt := ts;
         unreadCount := Some {[ userId := 1 ]} |})
  | Some chatRoomData =>
    let currentUnreadCount := unreadOf chatRoomData userId in
    updateChatRoom (λ _,
      setUnreadCount
        (Some (<[ userId := currentUnreadCount + 1 ]>
                 (spread (unreadCount chatRoomData)))))
  end ;;
  addMessage (newMessage me message) ;;
  updateChatRoom (λ ts, setLastMessage (Some (newLastMessage me message ts))) ;;
  setMessage "".

(** The guard [!message.trim() || !auth.currentUser?.uid || !userId ||
    sending]. *)
Definition sendGuard (w : World) : option User :=
  match currentUser with
  | Some me =>
    if negb (Js.truthy (Js.trim (message (screen w))))
       || negb (Js.truthy (uid me))
       || negb (Js.truthy userId)
       || sending (screen w)
    then None else Some me
  | None => None
  end.

Definition sendMessage : Action unit := λ w,
  match sendGuard w with
  | None => (Returned (), w)
  | Some me =>
    tryFinally
      (tryCatch (sendBody me (message (screen w)))
                (λ _, consoleError "Error sending message:"))
      (setSending false) w
  end.

(** *** The snapshot listener that marks messages read *)

(** [msg.senderId !== auth.currentUser?.uid && !msg.read] *)
Definition isUnread (msg : Message) : bool :=
  match currentUid with
  | Some u => negb (String.eqb (senderId msg) u)
  | None => true
  end && negb (read msg).

Definition markReadWrites (unreadMessages : list Message)
  : list (string * (Message → Message)) :=
  (λ msg, (id msg, setRead true)) <$> unreadMessages.

(** The callback, given the documents of the snapshot. *)
Definition onMessages (newMessages : list Message) : Action unit :=
  setMessages newMessages ;;
  setLoading false ;;
  let unreadMessages := List.filter isUnread newMessages in
  if 0 <? length unreadMessages
  then notAwaited (commitBatch (markReadWrites unreadMessages))
  else mret ().

(** The guard every effect starts with: [!auth.currentUser?.uid ||
    !userId]. *)
Definition effectGuard : bool :=
  match currentUid with
  | Some u => Js.truthy u && Js.truthy userId
  | None => false
  end.

(** The store pushes the current result of the query to the listener. *)
Definition deliverSnapshot : Action unit :=
  if effectGuard then b ← getBackend; onMessages (queryMessages b) else mret ().

(** *** [markMessagesAsRead] *)

(** The fields ['lastMessage.read'] and [`unreadCount.${uid}`] of the update:
    the read flag inside the last message and the viewer's entry inside the
    counter map; the other entries stay.  The update is only sent for a
    record that has a last message, and user identifiers, issued by the
    authentication provider, contain no dot. *)
Definition markSummaryRead (viewer : string) (d : ChatRoomData) : ChatRoomData :=
  {| participants := participants d;
     lastMessage := LastMessage.setRead true <$> lastMessage d;
     unreadCount := Some (<[ viewer := 0 ]> (spread (unreadCount d)));
     createdAt := createdAt d |}.

(** [chatRoomData.lastMessage?.senderId === userId &&
    !chatRoomData.lastMessage?.read] *)
Definition lastMessageUnread (chatRoomData : ChatRoomData) : bool :=
  match lastMessage chatRoomData with
  | Some l => String.eqb (LastMessage.senderId l) userId && negb (LastMessage.read l)
  | None => false
  end.

Definition markMessagesAsRead (viewer : string) : Action unit :=
  tryCatch
    (chatRoomDoc ← getChatRoom;
     match chatRoomDoc with
     | Some chatRoomData =>
       if lastMessageUnread chatRoomData
       then updateChatRoom (λ _, markSummaryRead viewer)
       else mret ()
     | None => mret ()
     end)
    (λ _, consoleError "Error marking messages as read:").

(** The effect that runs it when the screen opens. *)
Definition markReadEffect : Action unit :=
  match currentUid with
  | Some u => if Js.truthy u && Js.truthy userId then markMessagesAsRead u else mret ()
  | None => mret ()
  end.

(** Read-marking for one snapshot: the message-level batch and the
    conversation-summary action. *)
Definition readMarking (newMessages : list Message) : Action unit :=
  onMessages newMessages ;; markReadEffect.

(** The viewer opens the conversation: the listener receives the current
    messages and the summary is acknowledged. *)
Definition openConversation : Action unit :=
  deliverSnapshot ;; markReadEffect.

(** *** [handleReaction] *)

(** One round of [Object.keys(reactions).forEach]: [splice] removes the
    entry at [userIndex] from the array the map holds. *)
Definition removeUser (user : string) (reactions : reactionMap)
  (existingEmoji : string) : reactionMap :=
  match reactions !! existingEmoji with
  | None => reactions
  | Some users =>
    match indexOf user users with
    | None => reactions
    | Some userIndex =>
      let users' := delete userIndex users in
      if (length users') =? 0 then delete existingEmoji reactions
      else <[ existingEmoji := users' ]> reactions
    end
  end.

Definition keys (reactions : reactionMap) : list string :=
  (map_to_list reactions).*1.

Definition removePrevious (user : string) (reactions : reactionMap) : reactionMap :=
  foldl (removeUser user) reactions (keys reactions).

(** [if (!reactions[emoji]) reactions[emoji] = [];
    reactions[emoji].push(uid)]: an array, even empty, is truthy. *)
Definition addReaction (user emoji : string) (reactions : reactionMap) : reactionMap :=
  let reactions :=
    match reactions !! emoji with
    | None => <[ emoji := [] ]> reactions
    | Some _ => reactions
    end in
  alter (λ users, users ++ [user]) emoji reactions.

(** The map handed to [updateDoc]. *)
Definition updatedReactions (user emoji : string) (reactions : reactionMap)
  : reactionMap :=
  addReaction user emoji (removePrevious user reactions).

Definition handleReaction (messageId emoji : string) : Action unit :=
  match currentUid with
  | None => mret ()
  | Some user =>
    if negb (Js.truthy user) then mret () else
    tryCatch
      (messageDoc ← getMessage messageId;
       match messageDoc with
       | Some messageData =>
         let reactions := default ∅ (reactions messageData) in
         updateMessage messageId
           (setReactions (Some (updatedReactions user emoji reactions)))
       | None => mret ()
       end)
      (λ _, consoleError "Error updating reaction:")
  end.

End ChatScreen.
End ChatScreen.

(** ** The revised chat screen (second [ChatScreen] of [chat.tsx]) *)

Module ChatScreenRevised.
Section ChatScreen.

Variable currentUser : option User.
Variable userId : string.

(** [lastMessage: { ...newMsg }] *)
Definition newLastMessage (me : User) (message : string) (ts : nat)
  : LastMessage.t :=
  {| LastMessage.text := Js.trim message; LastMessage.timestamp := ts;
     LastMessage.senderId := uid me; LastMessage.senderEmail := email me;
     LastMessage.read := false |}.

Definition newMsg (me : User) (message : string) (ts : nat) (newId : string)
  : Message :=
  {| id := newId; text := Js.trim message; senderId := uid me;
     senderEmail := email me; timestamp := ts; read := false;
     reactions := None |}.

(** The [try] block.  Without a signed-in user [newMsg.senderId] is
    [undefined], a value the store refuses before any write is sent. *)
Definition sendBody (message : string) : Action unit :=
  docSnap ← getChatRoom;
  match currentUser with
  | None => throw "invalid-argument"
  | Some me =>
    match docSnap with
    | None =>
      setChatRoom (λ ts,
        {| participants := [uid me; userId];
           createdAt := ts;
           unreadCount := Some {[ userId := 1 ]};
           lastMessage := Some (newLastMessage me message ts) |})
    | Some prev =>
      updateChatRoom (λ ts d,
        setUnreadCount
          (Some (<[ userId := unreadOf prev userId + 1 ]>
                   (spread (unreadCount prev))))
          (setLastMessage (Some (newLastMessage me message ts)) d))
    end ;;
    addMessage (newMsg me message) ;;
    setMessage ""
  end.

Definition sendMessage : Action unit := λ w,
  if negb (Js.truthy (Js.trim (message (screen w)))) || sending (screen w)
  then (Returned (), w)
  else
    (setSending true ;;
     tryFinally
       (tryCatch (sendBody (message (screen w)))
                 (λ _, consoleError "Send error"))
       (setSending false)) w.

End ChatScreen.
End ChatScreenRevised.

(** ** Closed forms used in the statements *)

(** The collection after [read] has been set on the documents whose
    identifier is listed. *)
Definition markAll (messageIds : list string) (docs : list Message) : list Message :=
  (λ m, if bool_decide (id m ∈ messageIds) then setRead true m else m) <$> docs.

(** The batch for [unread] is accepted: there is one, the request is not
    rejected, and every document it updates exists. *)
Definition batchCommitted (unread : list Message) (w : World) : bool :=
  (0 <? length unread)
  && negb (default false (head (faults w)))
  && forallb (λ m, bool_decide (id m ∈ ids (messageDocs (backend w)))) unread.

(** The conversation record after [markReadEffect], when its requests are
    not rejected. *)
Definition acknowledged (currentUser : option User) (userId : string)
  (room : option ChatRoomData) : option ChatRoomData :=
  match uid <$> currentUser with
  | Some u =>
    if Js.truthy u && Js.truthy userId
    then (λ d, if ChatScreen.lastMessageUnread userId d
               then ChatScreen.markSummaryRead u d else d) <$> room
    else room
  | None => room
  end.

(** What one round of the removal loop leaves of an emoji's array: the
    array without the first occurrence of [user], or nothing when that
    empties it. *)
Definition withoutUser (user : string) (users : list string) : option (list string) :=
  match indexOf user users with
  | None => Some users
  | Some userIndex =>
    if (length (delete userIndex users)) =? 0 then None
    else Some (delete userIndex users)
  end.

(** The arrays of a reaction map are sets: no user twice, none empty. *)
Definition reactionSets (reactions : reactionMap) : Prop :=
  ∀ emoji users, reactions !! emoji = Some users → NoDup users ∧ users ≠ [].

(** The reaction map of a message sent without reactions, after a history
    of reaction updates [(user, emoji)], oldest first. *)
Definition afterUpdates (history : list (string * string)) : reactionMap :=
  foldl (λ acc h, ChatScreen.updatedReactions h.1 h.2 acc) ∅ history.

(** The selection rule, in words: the sender is not the current user and
    the message is not read. *)
Definition qualifies (currentUser : option User) (m : Message) : Prop :=
  uid <$> currentUser ≠ Some (senderId m) ∧ read m = false.

(** ** Sample data *)

Definition alice : User := {| uid := "alice"; email := Some "alice@example.org" |}.
Definition bob : User := {| uid := "bob"; email := None |}.

Definition emptyBackend : Backend :=
  {| chatRoomDoc := None; messageDocs := []; serverTime := 100 |}.

(** A screen with [text] in the compose buffer, and nothing else. *)
Definition composing (text : string) : Screen :=
  {| message := text; messages := []; loading := true; sending := false |}.

Definition worldOf (b : Backend) (sc : Screen) (plan : list bool) : World :=
  {| backend := b; screen := sc; faults := plan; trace := []; errorLog := [] |}.

(** No coming request is rejected. *)
Definition noFaults (w : World) : Prop := Forall (λ b, b = false) (faults w).

(** One of the next [n] requests is rejected. *)
Definition rejectedWithin (n : nat) (w : World) : bool :=
  existsb (λ b, b) (take n (faults w)).

(** Running an action for its effect on the world. *)
Definition exec {A} (a : Action A) (w : World) : World := (a w).2.

(** The user types [text] into the compose buffer. *)
Definition typeText (text : string) (w : World) : World :=
  exec (setMessage text) w.

(** A conversation record that counts three unread messages for Alice and
    has no entry for Bob. *)
Definition roomWithoutBob : ChatRoomData :=
  {| participants := ["alice"; "bob"]; lastMessage := None;
     unreadCount := Some {[ "alice" := 3 ]}; createdAt := 5 |}.

Definition aliceComposesAgain : World :=
  worldOf {| chatRoomDoc := Some roomWithoutBob; messageDocs := [];
             serverTime := 100 |}
          (composing "hi") [].

(** Alice, with [hi] typed in a conversation with Bob that does not exist
    yet. *)
Definition aliceComposes : World := worldOf emptyBackend (composing "hi") [].

(** Alice has sent [hi] and then [again]; Bob has not looked yet. *)
Definition afterTwoSends : World :=
  exec (ChatScreen.sendMessage (Some alice) "bob")
    (typeText "again" (exec (ChatScreen.sendMessage (Some alice) "bob") aliceComposes)).

Definition roomAfterTwoSends : ChatRoomData :=
  {| participants := ["alice"; "bob"];
     lastMessage := Some (ChatScreen.newLastMessage alice "again" 100);
     unreadCount := Some {[ "bob" := 2 ]};
     createdAt := 100 |}.

(** What the store pushes to Bob's listener then. *)
Definition bobsSnapshot : list Message := queryMessages (backend afterTwoSends).

(** ** The conversation identifier: [[uid, userId].sort().join('_')] *)

Module ChatId.

(** [sort()] without a comparator orders strings by their UTF-16 code
    units.  On UTF-8 text that is the order of the bytes, except that the
    characters from U+E000 to U+FFFF, whose first byte is 238 or 239, come
    after the characters beyond U+FFFF, which UTF-16 writes with
    surrogates. *)
Definition high (b : N) : bool := ((238 <=? b) && (b <=? 239))%N.

Definition unitLess (a b : N) : bool :=
  if high a then high b && (a <? b)%N else high b || (a <? b)%N.

Fixpoint lessUnits (s t : list N) : bool :=
  match s, t with
  | _, [] => false
  | [], _ :: _ => true
  | a :: s', b :: t' => if (a =? b)%N then lessUnits s' t' else unitLess a b
  end.

Definition less (a b : string) : bool := lessUnits (Js.bytesOf a) (Js.bytesOf b).

(** The two-element array after [sort()]. *)
Definition sortPair (a b : string) : string * string :=
  if less b a then (b, a) else (a, b).

Definition chatId (uid userId : string) : string :=
  (sortPair uid userId).1 +:+ "_" +:+ (sortPair uid userId).2.

(** The string holds no underscore. *)
Definition plain (s : string) : Prop := "_"%char ∉ list_ascii_of_string s.

End ChatId.

(** ** What the message list shows *)

Module Display.

(** The part of a [Date] that is read: [getHours()] and [getMinutes()]. *)
Record Date := { hours : nat; minutes : nat }.

Definition setHours (h : nat) (date : Date) : Date :=
  {| hours := h; minutes := minutes date |}.

(** [formatTime] of the revised screen's [renderItem]. *)
Definition formatTime (date : Date) : string :=
  let h := hours date in
  let m := minutes date in
  let ampm := if 12 <=? h then "PM" else "AM" in
  let h := if (h mod 12) =? 0 then 12 else h mod 12 in
  let mm := if m <? 10 then "0" +:+ pretty m else pretty m in
  pretty h +:+ ":" +:+ mm +:+ " " +:+ ampm.

(** The time under a message of the revised screen: [date] is
    [item.timestamp?.toDate?.()]. *)
Definition timeString (date : option Date) : string :=
  match date with
  | Some d => formatTime (setHours 9 d)
  | None => "..."
  end.

(** [Array.prototype.includes] on strings. *)
Definition includes (x : string) (l : list string) : bool :=
  existsb (String.eqb x) l.

(** [Object.entries(reactions).find(([_, users]) =>
    users.includes(auth.currentUser?.uid || ''))?.[0]], given the entries
    in the order the object lists them. *)
Definition userReaction (currentUid : option string)
  (entries : list (string * list string)) : option string :=
  fst <$> List.find (λ entry, includes (default "" currentUid) entry.2) entries.

(** [selectedMessage.reactions?.[emoji]?.includes(auth.currentUser?.uid || '')]
    of the reaction strip; a missing map or entry gives [undefined], which
    is falsy. *)
Definition isUserReaction (currentUid : option string)
  (reactions : option reactionMap) (emoji : string) : bool :=
  match reactions ≫= λ r, r !! emoji with
  | Some users => includes (default "" currentUid) users
  | None => false
  end.

End Display.

(** ** The context menu's position *)

Module ContextMenu.

Record Point := { x : Z; y : Z }.

(** [handleLongPress] of the first screen, for a touch at
    [(pageX, pageY)] in whole points. *)
Definition handleLongPress (windowWidth windowHeight pageX pageY : Z) : Point :=
  let menuWidth := 280%Z in
  let menuHeight := 120%Z in
  let x := if (pageX + menuWidth >? windowWidth)%Z
           then (windowWidth - menuWidth - 10)%Z else pageX in
  let y := if (pageY + menuHeight >? windowHeight)%Z
           then (pageY - menuHeight - 10)%Z else pageY in
  {| x := x; y := y |}.

(** [handleLongPress] of the revised screen. *)
Definition handleLongPressRevised (windowWidth windowHeight pageX pageY : Z) : Point :=
  {| x := Z.min pageX (windowWidth - 240); y := Z.min pageY (windowHeight - 160) |}.

End ContextMenu.

(** ** The revised screen's [handleReaction] *)

Module RevisedReactions.
Section Reactions.

Variable currentUser : option User.

(** One round of [Object.keys(reactions).forEach]: [filter] drops every
    occurrence of the user, and an array left empty is deleted. *)
Definition removeUser (user : string) (reactions : reactionMap) (e : string)
  : reactionMap :=
  match reactions !! e with
  | None => reactions
  | Some users =>
    let users' := List.filter (λ id, negb (String.eqb id user)) users in
    let reactions := <[ e := users' ]> reactions in
    if (length users') =? 0 then delete e reactions else reactions
  end.

Definition removePrevious (user : string) (reactions : reactionMap) : reactionMap :=
  foldl (removeUser user) reactions (ChatScreen.keys reactions).

(** [reactions[emoji] = reactions[emoji] || []; reactions[emoji].push(uid)] *)
Definition addReaction (user emoji : string) (reactions : reactionMap) : reactionMap :=
  alter (λ users, users ++ [user]) emoji
    (<[ emoji := default [] (reactions !! emoji) ]> reactions).

Definition updatedReactions (user emoji : string) (reactions : reactionMap)
  : reactionMap :=
  addReaction user emoji (removePrevious user reactions).

(** The handler reads the message first, gives up when it is missing or
    nobody is signed in, and has no [try]: a rejected request is its own
    rejection.  Closing the context menu at the end concerns a part of the
    screen that [Screen] leaves out. *)
Definition handleReaction (msgId emoji : string) : Action unit :=
  snap ← getMessage msgId;
  match snap, uid <$> currentUser with
  | Some msg, Some user =>
    if Js.truthy user
    then updateMessage msgId
           (setReactions (Some (updatedReactions user emoji
                                  (default ∅ (reactions msg)))))
    else mret ()
  | _, _ => mret ()
  end.

End Reactions.
End RevisedReactions.

(** ** The root layout's route guard *)

Module RootLayout.

(** The second effect of [RootLayout]: where [router.replace] goes, if
    anywhere.  [signedIn] is [user] being non-null. *)
Definition redirect (authChecked signedIn : bool) (segments : list string)
  : option string :=
  if negb authChecked then None else
  let inAuthGroup := bool_decide (head segments = Some "(tabs)") in
  let inChat := bool_decide (head segments = Some "chat") in
  let inProfile := bool_decide (head segments = Some "profile") in
  if negb signedIn && (inAuthGroup || inChat || inProfile) then Some "/"
  else if signedIn && negb inAuthGroup && negb inChat && negb inProfile
  then Some "/(tabs)/users"
  else None.

(** The segments the router reports for a path: its non-empty parts
    between slashes. *)
Fixpoint splitPath (cur : string) (path : list ascii) : list string :=
  match path with
  | [] => if String.eqb cur "" then [] else [cur]
  | c :: rest =>
    if Ascii.eqb c "/"
    then (if String.eqb cur "" then [] else [cur]) ++ splitPath "" rest
    else splitPath (cur +:+ String c "") rest
  end.

Definition segmentsOf (path : string) : list string :=
  splitPath "" (list_ascii_of_string path).

End RootLayout.

(** ** Runs of sends *)

(** The user types and sends each of [texts] in turn. *)
Definition sendAll (me : User) (userId : string) (texts : list string) (w : World)
  : World :=
  foldl (λ w t, exec (ChatScreen.sendMessage (Some me) userId) (typeText t w)) w texts.

(** The recipient's unread counter as the record has it, [None] without a
    record, a map or an entry. *)
Definition counterOf (b : Backend) (user : string) : option nat :=
  chatRoomDoc b ≫= λ d, unreadCount d ≫= λ u, u !! user.

(** What one round of the revised removal loop leaves of an emoji's array. *)
Definition withoutUserAll (user : string) (users : list string)
  : option (list string) :=
  let users' := List.filter (λ id, negb (String.eqb id user)) users in
  if (length users') =? 0 then None else Some users'.

(** How many requests of a send are accepted before the first rejection,
    four at most. *)
Definition accepted (w : World) : nat :=
  match list_find (λ b, b = true) (take 4 (faults w)) with
  | Some (i, _) => i
  | None => 4
  end.

(** The record that the first write of a send stores. *)
Definition firstWrite (me : User) (userId : string) (w : World) : ChatRoomData :=
  match chatRoomDoc (backend w) with
  | None =>
    {| participants := [uid me; userId];
       lastMessage := Some (ChatScreen.newLastMessage me (message (screen w))
                              (serverTime (backend w)));
       unreadCount := Some {[ userId := 1 ]};
       createdAt := serverTime (backend w) |}
  | Some d =>
    setUnreadCount (Some (<[ userId := unreadOf d userId + 1 ]>
                            (spread (unreadCount d)))) d
  end.

(** The store after the first [n] requests of a send of the first screen
    have been accepted and the next, if any, rejected. *)
Definition sendProgress (n : nat) (me : User) (userId : string) (w : World)
  : Backend :=
  let b := backend w in
  let sent := ChatScreen.newMessage me (message (screen w)) (serverTime b)
                (fresh (ids (messageDocs b))) in
  match n with
  | 0 | 1 => b
  | 2 => {| chatRoomDoc := Some (firstWrite me userId w);
            messageDocs := messageDocs b; serverTime := serverTime b |}
  | 3 => {| chatRoomDoc := Some (firstWrite me userId w);
            messageDocs := messageDocs b ++ [sent]; serverTime := serverTime b |}
  | _ => {| chatRoomDoc :=
              Some (setLastMessage
                      (Some (ChatScreen.newLastMessage me (message (screen w))
                               (serverTime b)))
                      (firstWrite me userId w));
            messageDocs := messageDocs b ++ [sent]; serverTime := serverTime b |}
  end.

(** ** The conversation list ([ChatsScreen]) *)

(** The last message as a row of the list shows it. *)
Module Preview.
Record t := {
  text : string;
  timestamp : option nat;
  senderId : string;
  read : bool;
}.
End Preview.

(** The rows of the list (interface [ChatRoom]). *)
Module ChatRoom.
Record t := {
  id : string;
  participants : list string;
  lastMessage : Preview.t;
  unreadCount : nat;
  otherUserName : string;
  otherUserEmail : string;
}.
End ChatRoom.

Module ChatsScreen.

(** A document of the [users] collection (interface [UserData]). *)
Record UserData := { name : option string; email : option string }.

(** The callback's variables [rooms] and [totalUnread]; with them the fate
    of the coming [getDoc] calls and the console. *)
Record Listing := {
  rooms : list ChatRoom.t;
  totalUnread : nat;
  plan : list bool;
  console : list string;
}.

Section ChatsScreen.

(** [auth.currentUser] and the [users] collection. *)
Variable currentUser : option User.
Variable users : gmap string UserData.

(** [data.lastMessage?.timestamp?.toMillis?.() || 0] *)
Definition lastTime (data : ChatRoomData) : nat :=
  default 0 (LastMessage.timestamp <$> lastMessage data).

(** [snapshot.docs.sort((a, b) => bTime - aTime)]: newest first, documents
    of equal time in their order of arrival. *)
Fixpoint insertDoc (x : string * ChatRoomData) (l : list (string * ChatRoomData))
  : list (string * ChatRoomData) :=
  match l with
  | [] => [x]
  | y :: l' =>
    if lastTime y.2 <=? lastTime x.2 then x :: y :: l' else y :: insertDoc x l'
  end.

Definition sortedDocs (docs : list (string * ChatRoomData))
  : list (string * ChatRoomData) :=
  foldr insertDoc [] docs.

(** [data.participants.find((id) => id !== auth.currentUser?.uid)] *)
Definition otherParticipant (data : ChatRoomData) : option string :=
  List.find (λ id, negb (bool_decide (Some id = uid <$> currentUser)))
    (participants data).

(** [data.unreadCount?.[auth.currentUser?.uid || ''] || 0] *)
Definition unreadFor (data : ChatRoomData) : nat :=
  default 0 (unreadCount data ≫= λ u, u !! default "" (uid <$> currentUser)).

Definition row (docId : string) (data : ChatRoomData) (userData : UserData)
  : ChatRoom.t :=
  {| ChatRoom.id := docId;
     ChatRoom.participants := participants data;
     ChatRoom.lastMessage :=
       {| Preview.text := default "" (LastMessage.text <$> lastMessage data);
          Preview.timestamp := LastMessage.timestamp <$> lastMessage data;
          Preview.senderId := default "" (LastMessage.senderId <$> lastMessage data);
          Preview.read := default false (LastMessage.read <$> lastMessage data) |};
     ChatRoom.unreadCount := unreadFor data;
     ChatRoom.otherUserName :=
       match name userData with
       | Some n => if Js.truthy n then n else "Unknown User"
       | None => "Unknown User"
       end;
     ChatRoom.otherUserEmail := default "" (email userData) |}.

(** One round of [for (const docSnapshot of sortedDocs)], with its own
    [try]. *)
Definition processDoc (st : Listing) (docSnapshot : string * ChatRoomData)
  : Listing :=
  let data := docSnapshot.2 in
  match otherParticipant data with
  | None => st
  | Some otherUserId =>
    if negb (Js.truthy otherUserId) then st else
    match plan st with
    | true :: rest =>
      {| rooms := rooms st; totalUnread := totalUnread st; plan := rest;
         console := console st ++ ["Error processing chat room:"] |}
    | _ =>
      match users !! otherUserId with
      | None =>
        {| rooms := rooms st; totalUnread := totalUnread st;
           plan := tail (plan st);
           console := console st
             ++ ["User document not found for ID: " +:+ otherUserId] |}
      | Some userData =>
        {| rooms := rooms st ++ [row docSnapshot.1 data userData];
           totalUnread := totalUnread st + unreadFor data;
           plan := tail (plan st);
           console := console st |}
      end
    end
  end.

(** The callback up to [setChatRooms(rooms); setUnreadTotal(totalUnread)]. *)
Definition listing (docs : list (string * ChatRoomData)) (faultPlan : list bool)
  : Listing :=
  foldl processDoc
    {| rooms := []; totalUnread := 0; plan := faultPlan; console := [] |}
    (sortedDocs docs).

End ChatsScreen.

(** The time by which a row is ordered. *)
Definition rowTime (r : ChatRoom.t) : nat :=
  default 0 (Preview.timestamp (ChatRoom.lastMessage r)).

End ChatsScreen.

(** The order of the sorted snapshot: the earlier document has the later,
    or the same, last-message time. *)
Definition newerFirst (a b : string * ChatRoomData) : Prop :=
  ChatsScreen.lastTime b.2 ≤ ChatsScreen.lastTime a.2.

(** * Properties *)

(** Closed decidable facts about sample data are settled by evaluation. *)
Ltac decide_by_compute := apply (bool_decide_unpack _); vm_compute; exact I.

(** Case analysis on the fate of the next request of a fault-free plan. *)
Ltac next_request Hf :=
  match type of Hf with
  | Forall _ ?fs =>
    let b := fresh "b" in
    destruct fs as [|b fs]; [|apply Forall_cons in Hf as [-> Hf]]
  end.

(** ** The reconciler *)

Module ReconcilerFacts.
Import Reconciler.

Lemma sameId_true n m : sameId n m = true ↔ id m = id n.
Proof. unfold sameId. apply String.eqb_eq. Qed.

Lemma sameId_false n m : sameId n m = false ↔ id m ≠ id n.
Proof. unfold sameId. apply String.eqb_neq. Qed.

Lemma findIndex_Some p l i :
  findIndex p l = Some i →
  ∃ m, l !! i = Some m ∧ p m = true
       ∧ ∀ j m', j < i → l !! j = Some m' → p m' = false.
Proof.
  revert i. induction l as [|a l IH]; intros i; simpl; [done|].
  destruct (p a) eqn:Hp.
  - intros [= <-]. exists a. split_and!; [done..|]. intros j m' Hj. lia.
  - destruct (findIndex p l) as [k|]; simpl; [|done].
    intros [= <-]. destruct (IH k eq_refl) as (m & Hm & Hpm & Hlt).
    exists m. split_and!; [done..|].
    intros [|j] m' Hj; simpl; [by intros [= <-]|].
    apply Hlt. lia.
Qed.

Lemma findIndex_None p l :
  findIndex p l = None ↔ ∀ m, m ∈ l → p m = false.
Proof.
  induction l as [|a l IH]; simpl.
  - split; [|done]. intros _ m Hm. by apply elem_of_nil in Hm.
  - destruct (p a) eqn:Hp.
    + split; [done|]. intros H. rewrite H in Hp; [done|]. left.
    + destruct (findIndex p l) as [k|]; simpl.
      * split; [done|]. intros H.
        assert (Some k = None) as Hk; [|done].
        apply IH. intros m Hm. apply H. by right.
      * split; [|done]. intros _ m [->|Hm]%elem_of_cons; [done|].
        by apply IH.
Qed.

Lemma findIndex_is_Some n l :
  is_Some (findIndex (sameId n) l) ↔ id n ∈ ids l.
Proof.
  split.
  - intros [i Hi]. apply findIndex_Some in Hi as (m & Hm & Hp & _).
    apply sameId_true in Hp. rewrite <- Hp.
    apply list_elem_of_fmap. exists m. split; [done|].
    by eapply list_elem_of_lookup_2.
  - intros (m & Hid & Hm)%list_elem_of_fmap.
    destruct (findIndex (sameId n) l) eqn:E; [by eexists|].
    rewrite findIndex_None in E. specialize (E m Hm).
    apply sameId_false in E. congruence.
Qed.

(** Replacing an entry by one with the same identifier, or appending a
    new one: on identifiers a step only ever appends. *)
Lemma ids_mergeStep l n :
  ids (mergeStep l n) = if bool_decide (id n ∈ ids l) then ids l else ids l ++ [id n].
Proof.
  unfold mergeStep. destruct (findIndex (sameId n) l) as [i|] eqn:E.
  - rewrite bool_decide_eq_true_2 by (apply findIndex_is_Some; rewrite E; by eexists).
    apply findIndex_Some in E as (m & Hm & Hp & _). apply sameId_true in Hp.
    unfold ids. rewrite list_fmap_insert. apply list_insert_id.
    rewrite list_lookup_fmap, Hm. simpl. by rewrite Hp.
  - rewrite bool_decide_eq_false_2.
    + unfold ids. by rewrite fmap_app.
    + intros H. apply findIndex_is_Some in H as [? H]. congruence.
Qed.

Lemma length_mergeStep_ge l n : length l ≤ length (mergeStep l n).
Proof.
  unfold mergeStep. destruct (findIndex _ _).
  - by rewrite length_insert.
  - rewrite length_app. lia.
Qed.

Lemma ids_mergeLoop_prefix l snap : ∃ k, ids (mergeLoop l snap) = ids l ++ k.
Proof.
  unfold mergeLoop. revert l. induction snap as [|n snap IH]; intros l; simpl.
  - exists []. by rewrite app_nil_r.
  - destruct (IH (mergeStep l n)) as [k Hk]. rewrite Hk, ids_mergeStep.
    case_bool_decide; [by eexists|]. rewrite <- app_assoc. by eexists.
Qed.

Lemma NoDup_ids_mergeStep l n : NoDup (ids l) → NoDup (ids (mergeStep l n)).
Proof.
  intros H. rewrite ids_mergeStep. case_bool_decide; [done|].
  apply NoDup_app. split_and!; [done| |apply NoDup_singleton].
  intros x Hx ->%list_elem_of_singleton. done.
Qed.

Lemma NoDup_ids_mergeLoop l snap : NoDup (ids l) → NoDup (ids (mergeLoop l snap)).
Proof.
  unfold mergeLoop. revert l. induction snap as [|n snap IH]; intros l H; simpl; [done|].
  apply IH. by apply NoDup_ids_mergeStep.
Qed.

Lemma elem_of_ids_mergeStep l n i :
  i ∈ ids (mergeStep l n) ↔ i ∈ ids l ∨ i = id n.
Proof.
  rewrite ids_mergeStep. case_bool_decide.
  - split; [by left|]. intros [?| ->]; done.
  - rewrite elem_of_app, list_elem_of_singleton. done.
Qed.

Lemma elem_of_ids_mergeLoop l snap i :
  i ∈ ids (mergeLoop l snap) ↔ i ∈ ids l ∨ i ∈ ids snap.
Proof.
  unfold mergeLoop. revert l. induction snap as [|n snap IH]; intros l; simpl.
  - split; [by left|]. intros [?|H]; [done|]. by apply elem_of_nil in H.
  - rewrite IH, elem_of_ids_mergeStep, elem_of_cons. tauto.
Qed.

Lemma countId_NoDup i l : NoDup (ids l) → i ∈ ids l → countId i l = 1.
Proof.
  unfold countId. induction l as [|m l IH]; simpl.
  - intros _ H. by apply elem_of_nil in H.
  - intros [Hm Hnd]%NoDup_cons Hi. rewrite filter_cons. case_decide as E.
    + simpl. f_equal. subst i.
      assert (filter (λ m0, id m0 = id m) l = []) as ->; [|done].
      destruct (filter _ l) as [|x f] eqn:Ef; [done|].
      assert (x ∈ filter (λ m0, id m0 = id m) l) as [Hid Hx]%list_elem_of_filter
        by (rewrite Ef; left).
      destruct Hm. rewrite <- Hid. apply list_elem_of_fmap. eauto.
    + apply IH; [done|]. apply elem_of_cons in Hi as [?|?]; [congruence|done].
Qed.

Lemma findIndex_ids n l : findIndex (sameId n) l = indexOf (id n) (ids l).
Proof.
  induction l as [|m l IH]; simpl; [done|].
  unfold sameId at 1. destruct (String.eqb (id m) (id n)); [done|]. by rewrite IH.
Qed.

Lemma indexOf_app_Some x l k i :
  indexOf x l = Some i → indexOf x (l ++ k) = Some i.
Proof.
  revert i. induction l as [|y l IH]; intros i; simpl; [done|].
  destruct (String.eqb y x); [done|].
  destruct (indexOf x l) as [j|]; simpl; [|done].
  intros [= <-]. by rewrite (IH j eq_refl).
Qed.

Lemma findIndex_mergeStep n l x i :
  findIndex (sameId n) l = Some i → findIndex (sameId n) (mergeStep l x) = Some i.
Proof.
  rewrite !findIndex_ids, ids_mergeStep. case_bool_decide; [done|].
  apply indexOf_app_Some.
Qed.

Lemma findIndex_same_id n n' l :
  id n = id n' → findIndex (sameId n) l = findIndex (sameId n') l.
Proof. intros H. by rewrite !findIndex_ids, H. Qed.

(** A step leaves alone every entry whose identifier differs from the new
    message's. *)
Lemma mergeStep_lookup_ne l n i m :
  l !! i = Some m → id m ≠ id n → mergeStep l n !! i = Some m.
Proof.
  intros Hi Hne. unfold mergeStep.
  destruct (findIndex (sameId n) l) as [k|] eqn:E.
  - apply findIndex_Some in E as (m' & Hk & Hp & _). apply sameId_true in Hp.
    rewrite list_lookup_insert_ne; [done|]. intros ->. congruence.
  - by apply lookup_app_l_Some.
Qed.

Lemma mergeLoop_lookup_untouched snap l i m :
  l !! i = Some m → id m ∉ ids snap → mergeLoop l snap !! i = Some m.
Proof.
  unfold mergeLoop. revert l. induction snap as [|n snap IH]; intros l Hi Hni; simpl; [done|].
  apply not_elem_of_cons in Hni as [Hne Hni].
  apply IH; [|done]. by apply mergeStep_lookup_ne.
Qed.

Lemma mergeStep_lookup_found l n i :
  findIndex (sameId n) l = Some i → mergeStep l n !! i = Some n.
Proof.
  intros E. unfold mergeStep. rewrite E.
  apply findIndex_Some in E as (m & Hm & _).
  apply list_lookup_insert_eq. by eapply lookup_lt_Some.
Qed.

(** Live wins, whatever the lists: the slot found by [findIndex] ends up
    holding a snapshot message with that identifier. *)
Lemma mergeLoop_live_wins_gen snap l n i :
  n ∈ snap → findIndex (sameId n) l = Some i →
  ∃ n', n' ∈ snap ∧ id n' = id n ∧ mergeLoop l snap !! i = Some n'.
Proof.
  unfold mergeLoop. revert l n. induction snap as [|x snap IH]; intros l n Hn Hi.
  { by apply elem_of_nil in Hn. }
  simpl. destruct (decide (id n ∈ ids snap)) as [Hin|Hnin].
  - apply list_elem_of_fmap in Hin as (n2 & Hid & Hn2).
    destruct (IH (mergeStep l x) n2 Hn2) as (n' & Hn' & Hid' & Hl).
    { apply findIndex_mergeStep. by rewrite <- (findIndex_same_id n n2). }
    exists n'. split_and!; [by right|congruence|done].
  - apply elem_of_cons in Hn as [->|Hn].
    + exists x. split_and!; [by left|done|].
      apply (mergeLoop_lookup_untouched snap); [|done].
      by apply mergeStep_lookup_found.
    + destruct Hnin. apply list_elem_of_fmap. eauto.
Qed.

(** With pairwise distinct snapshot identifiers the slot holds the very
    message of the snapshot. *)
Lemma mergeLoop_live_wins snap l n i :
  NoDup (ids snap) → n ∈ snap → findIndex (sameId n) l = Some i →
  mergeLoop l snap !! i = Some n.
Proof.
  unfold mergeLoop. revert l. induction snap as [|x snap IH]; intros l Hnd Hn Hi.
  { by apply elem_of_nil in Hn. }
  simpl in *. apply NoDup_cons in Hnd as [Hx Hnd].
  apply elem_of_cons in Hn as [->|Hn].
  - apply (mergeLoop_lookup_untouched snap); [|done].
    by apply mergeStep_lookup_found.
  - apply IH; [done..|]. by apply findIndex_mergeStep.
Qed.

Lemma filter_ext_elem_of {A} (P1 P2 : A → Prop)
    `{!∀ x, Decision (P1 x), !∀ x, Decision (P2 x)} (l : list A) :
  (∀ x, x ∈ l → P1 x ↔ P2 x) → filter P1 l = filter P2 l.
Proof.
  induction l as [|a l IH]; intros Hiff; [done|].
  rewrite !filter_cons.
  rewrite IH by (intros x Hx; apply Hiff; by right).
  assert (P1 a ↔ P2 a) as Ha by (apply Hiff; left).
  destruct (decide (P1 a)), (decide (P2 a)); tauto || done.
Qed.

Lemma filter_all {A} (P : A → Prop) `{!∀ x, Decision (P x)} (l : list A) :
  (∀ x, P x) → filter P l = l.
Proof.
  intros HP. induction l as [|a l IH]; [done|].
  by rewrite filter_cons_True, IH.
Qed.

(** New messages go to the end, in snapshot order. *)
Lemma mergeLoop_drop snap l :
  NoDup (ids snap) →
  drop (length l) (mergeLoop l snap) = filter (λ n, id n ∉ ids l) snap.
Proof.
  unfold mergeLoop. revert l. induction snap as [|x snap IH]; intros l Hnd; simpl.
  { by rewrite drop_all. }
  change (ids (x :: snap)) with (id x :: ids snap) in Hnd.
  apply NoDup_cons in Hnd as [Hx Hnd].
  pose proof (ids_mergeStep l x) as Hids.
  destruct (decide (id x ∈ ids l)) as [Hin|Hin].
  - rewrite filter_cons_False by (intros H; done).
    rewrite bool_decide_eq_true_2 in Hids by done.
    assert (length (mergeStep l x) = length l) as Hlen.
    { rewrite <- (length_fmap id (mergeStep l x)). fold (ids (mergeStep l x)).
      rewrite Hids. unfold ids. by rewrite length_fmap. }
    rewrite <- Hlen, IH by done. by rewrite Hids.
  - rewrite filter_cons_True by done.
    rewrite bool_decide_eq_false_2 in Hids by done.
    assert (length (mergeStep l x) = S (length l)) as Hlen.
    { rewrite <- (length_fmap id (mergeStep l x)). fold (ids (mergeStep l x)).
      rewrite Hids, length_app. unfold ids. rewrite length_fmap. simpl. lia. }
    assert (mergeStep l x !! length l = Some x) as Hlast.
    { unfold mergeStep. destruct (findIndex (sameId x) l) eqn:E.
      - destruct Hin. apply findIndex_is_Some. by eexists.
      - by rewrite lookup_app_r, Nat.sub_diag. }
    pose proof (mergeLoop_lookup_untouched snap _ _ _ Hlast Hx) as Hl.
    unfold mergeLoop in Hl.
    erewrite drop_S by exact Hl. f_equal.
    rewrite <- Hlen, IH by done.
    apply filter_ext_elem_of. intros n Hn.
    rewrite Hids, elem_of_app, list_elem_of_singleton.
    split; [tauto|]. intros H [?|Heq]; [done|].
    apply Hx. rewrite <- Heq. apply list_elem_of_fmap. eauto.
Qed.

Lemma indexOf_NoDup_lookup (l : list string) i x :
  NoDup l → l !! i = Some x → indexOf x l = Some i.
Proof.
  revert i. induction l as [|y l IH]; intros i Hnd Hi; [done|].
  apply NoDup_cons in Hnd as [Hy Hnd]. simpl.
  destruct i as [|i]; simpl in Hi.
  - injection Hi as ->. by rewrite String.eqb_refl.
  - destruct (String.eqb_spec y x) as [->|_].
    + destruct Hy. by eapply list_elem_of_lookup_2.
    + by rewrite (IH i).
Qed.

Lemma mergedMessages_nonempty localMessages messageList :
  (0 <? length localMessages) = true →
  mergedMessages localMessages messageList = mergeLoop localMessages messageList.
Proof. unfold mergedMessages. by intros ->. Qed.

Lemma mergedMessages_empty messageList :
  mergedMessages [] messageList = messageList.
Proof. done. Qed.

Lemma mergedMessages_cases localMessages messageList :
  (localMessages = [] ∧ mergedMessages localMessages messageList = messageList)
  ∨ (mergedMessages localMessages messageList = mergeLoop localMessages messageList).
Proof. destruct localMessages; [by left|by right]. Qed.

(** C1. When the identifiers of the previous merged list are pairwise
    distinct and so are those of the new snapshot, the identifiers of the
    merged result are pairwise distinct, every identifier of either input
    occurs exactly once in the result (no duplicate, no loss), and the
    result holds no other identifier: by identifier it is the union of the
    two inputs, so a superset of both. *)
Theorem merge_ids_exactly_once (localMessages messageList : list Message) :
  NoDup (ids localMessages) → NoDup (ids messageList) →
  NoDup (ids (mergedMessages localMessages messageList))
  ∧ (∀ i, i ∈ ids localMessages ∨ i ∈ ids messageList →
          countId i (mergedMessages localMessages messageList) = 1)
  ∧ (∀ i, i ∈ ids (mergedMessages localMessages messageList) →
          i ∈ ids localMessages ∨ i ∈ ids messageList).
Proof.
  intros Hl Hs.
  assert (NoDup (ids (mergedMessages localMessages messageList))) as Hnd.
  { destruct (mergedMessages_cases localMessages messageList) as [[_ ->]| ->];
      [done|by apply NoDup_ids_mergeLoop]. }
  assert (∀ i, i ∈ ids (mergedMessages localMessages messageList)
               ↔ i ∈ ids localMessages ∨ i ∈ ids messageList) as Hin.
  { intros i.
    destruct (mergedMessages_cases localMessages messageList) as [[-> ->]| ->].
    - split; [by right|]. intros [H|H]; [by apply elem_of_nil in H|done].
    - apply elem_of_ids_mergeLoop. }
  split_and!; [done| |by intros i ?%Hin].
  intros i Hi. apply countId_NoDup; [done|]. by apply Hin.
Qed.

Lemma merge_ids_exactly_once_witness :
  NoDup (ids cachedList) ∧ NoDup (ids liveSnapshot)
  ∧ countId "m2" (mergedMessages cachedList liveSnapshot) = 1.
Proof.
  assert (NoDup (ids cachedList)) as H1 by decide_by_compute.
  assert (NoDup (ids liveSnapshot)) as H2 by decide_by_compute.
  split_and!; [done..|].
  apply (merge_ids_exactly_once cachedList liveSnapshot H1 H2).
  left. vm_compute. left.
Defined.

(** C2. In the merged result every slot of the previous list keeps its
    identifier; the slot that [findIndex] finds for a snapshot message
    holds a snapshot message with that identifier; when identifiers are
    pairwise distinct in both lists, the slot of a message that the
    snapshot also holds contains the snapshot's copy (live wins); a slot
    whose identifier the snapshot lacks keeps its
    entry; the messages of the snapshot whose identifier is new come after
    the previous list's slots, in snapshot order; and the result is not
    sorted again by send time: merging two lists that are each in send
    order can give a list that is not. *)
Theorem merge_position_stability (localMessages messageList : list Message) :
  (∀ i m, localMessages !! i = Some m →
     ∃ m', mergedMessages localMessages messageList !! i = Some m' ∧ id m' = id m)
  ∧ (∀ n i, n ∈ messageList → findIndex (sameId n) localMessages = Some i →
     ∃ n', n' ∈ messageList ∧ id n' = id n
           ∧ mergedMessages localMessages messageList !! i = Some n')
  ∧ (NoDup (ids localMessages) → NoDup (ids messageList) →
     ∀ i m n, localMessages !! i = Some m → n ∈ messageList → id n = id m →
       mergedMessages localMessages messageList !! i = Some n)
  ∧ (∀ i m, localMessages !! i = Some m → id m ∉ ids messageList →
       mergedMessages localMessages messageList !! i = Some m)
  ∧ (NoDup (ids messageList) →
       drop (length localMessages) (mergedMessages localMessages messageList)
       = filter (λ n, id n ∉ ids localMessages) messageList)
  ∧ (sortedByTime cachedList = true ∧ sortedByTime liveSnapshot = true
     ∧ sortedByTime (mergedMessages cachedList liveSnapshot) = false).
Proof.
  split_and!.
  - intros i m Hi.
    assert ((0 <? length localMessages) = true) as Hne.
    { apply Nat.ltb_lt. apply lookup_lt_Some in Hi. lia. }
    rewrite mergedMessages_nonempty by done.
    destruct (ids_mergeLoop_prefix localMessages messageList) as [k Hk].
    assert (ids (mergeLoop localMessages messageList) !! i = Some (id m)) as Hl.
    { rewrite Hk. apply lookup_app_l_Some. unfold ids. by rewrite list_lookup_fmap, Hi. }
    unfold ids in Hl. rewrite list_lookup_fmap in Hl.
    destruct (mergeLoop localMessages messageList !! i) as [m'|]; [|done].
    exists m'. split; [done|]. simpl in Hl. congruence.
  - intros n i Hn Hi.
    assert ((0 <? length localMessages) = true) as Hne.
    { apply Nat.ltb_lt. apply findIndex_Some in Hi as (m & Hm & _).
      apply lookup_lt_Some in Hm. lia. }
    rewrite mergedMessages_nonempty by done.
    by apply mergeLoop_live_wins_gen.
  - intros Hl Hs i m n Hi Hn Hid.
    assert ((0 <? length localMessages) = true) as Hne.
    { apply Nat.ltb_lt. apply lookup_lt_Some in Hi. lia. }
    rewrite mergedMessages_nonempty by done.
    apply mergeLoop_live_wins; [done..|].
    rewrite findIndex_ids. apply indexOf_NoDup_lookup; [done|].
    unfold ids. by rewrite list_lookup_fmap, Hi, Hid.
  - intros i m Hi Hni.
    assert ((0 <? length localMessages) = true) as Hne.
    { apply Nat.ltb_lt. apply lookup_lt_Some in Hi. lia. }
    rewrite mergedMessages_nonempty by done.
    by apply mergeLoop_lookup_untouched.
  - intros Hs.
    destruct (mergedMessages_cases localMessages messageList) as [[-> ->]| ->].
    + simpl. symmetry. apply filter_all. intros n H. by apply elem_of_nil in H.
    + by apply mergeLoop_drop.
  - done.
  - done.
  - done.
Qed.

Lemma merge_position_stability_witness :
  NoDup (ids cachedList) ∧ NoDup (ids liveSnapshot)
  ∧ mergedMessages cachedList liveSnapshot !! 0
    = Some (plainMessage "m2" "hello" "alice" 20 true)
  ∧ drop 2 (mergedMessages cachedList liveSnapshot)
    = [plainMessage "m1" "hi" "alice" 10 true].
Proof.
  assert (NoDup (ids cachedList)) as H1 by decide_by_compute.
  assert (NoDup (ids liveSnapshot)) as H2 by decide_by_compute.
  destruct (merge_position_stability cachedList liveSnapshot)
    as (_ & _ & Hlive & _ & Hdrop & _).
  split_and!; [done..| |].
  - apply (Hlive H1 H2 0 (plainMessage "m2" "hello" "alice" 20 false)); [done| |done].
    right. left.
  - apply (Hdrop H2).
Defined.

(** C9, as the code has it. The scroll to the newest entry is issued
    exactly when the new snapshot is non-empty, and then the merged list is
    non-empty too; with an empty snapshot no scroll is issued, whatever the
    previous merged list holds. *)
Theorem scroll_issued_iff_snapshot_nonempty (localMessages messageList : list Message) :
  (scrollIssued (onSnapshot localMessages messageList) = true ↔ messageList ≠ [])
  ∧ (messageList ≠ [] → mergedMessages localMessages messageList ≠ []).
Proof.
  split.
  - unfold onSnapshot, scrollIssued. destruct messageList; simpl; split; done.
  - intros Hne Hm.
    destruct (mergedMessages_cases localMessages messageList) as [[_ H]|H];
      rewrite H in Hm; [done|].
    destruct messageList as [|n snap]; [done|].
    assert (id n ∈ ids (mergeLoop localMessages (n :: snap))) as Hin.
    { apply elem_of_ids_mergeLoop. right. left. }
    rewrite Hm in Hin. by apply elem_of_nil in Hin.
Qed.

Lemma scroll_issued_iff_snapshot_nonempty_witness :
  liveSnapshot ≠ []
  ∧ scrollIssued (onSnapshot cachedList liveSnapshot) = true
  ∧ mergedMessages cachedList liveSnapshot ≠ [].
Proof.
  assert (liveSnapshot ≠ []) as H by done.
  destruct (scroll_issued_iff_snapshot_nonempty cachedList liveSnapshot) as [Hs Hm].
  split_and!; [done|by apply Hs|by apply Hm].
Defined.

(** C9, as the claim words it, fails: with a non-empty previous list and an
    empty snapshot the merge yields a non-empty list, yet no scroll is
    issued. *)
Lemma scroll_missing_on_empty_snapshot :
  mergedMessages cachedList [] = cachedList
  ∧ mergedMessages cachedList [] ≠ []
  ∧ scrollIssued (onSnapshot cachedList []) = false.
Proof. split_and!; done. Qed.

End ReconcilerFacts.

(** ** The send path *)

Module SendFacts.
Import ChatScreen.

Lemma truthy_true s : Js.truthy s = true ↔ s ≠ "".
Proof.
  unfold Js.truthy. rewrite negb_true_iff. apply String.eqb_neq.
Qed.

Lemma sendGuard_pass me userId w :
  Js.trim (message (screen w)) ≠ "" → uid me ≠ "" → userId ≠ "" →
  sending (screen w) = false →
  sendGuard (Some me) userId w = Some me.
Proof.
  intros Ht%truthy_true Hu%truthy_true Hv%truthy_true Hs.
  unfold sendGuard. by rewrite Ht, Hu, Hv, Hs.
Qed.

(** A send none of whose requests is rejected, in full. *)
Lemma send_success me userId w :
  Js.trim (message (screen w)) ≠ "" → uid me ≠ "" → userId ≠ "" →
  sending (screen w) = false → noFaults w →
  exec (sendMessage (Some me) userId) w =
  {| backend :=
       {| chatRoomDoc := Some
            match chatRoomDoc (backend w) with
            | None =>
              {| participants := [uid me; userId];
                 lastMessage := Some (newLastMessage me (message (screen w))
                                        (serverTime (backend w)));
                 unreadCount := Some {[ userId := 1 ]};
                 createdAt := serverTime (backend w) |}
            | Some d =>
              {| participants := participants d;
                 lastMessage := Some (newLastMessage me (message (screen w))
                                        (serverTime (backend w)));
                 unreadCount := Some (<[ userId := unreadOf d userId + 1 ]>
                                        (spread (unreadCount d)));
                 createdAt := createdAt d |}
            end;
          messageDocs := messageDocs (backend w)
            ++ [newMessage me (message (screen w)) (serverTime (backend w))
                  (fresh (ids (messageDocs (backend w))))];
          serverTime := serverTime (backend w) |};
     screen := {| message := ""; messages := messages (screen w);
                  loading := loading (screen w); sending := false |};
     faults := drop 4 (faults w);
     trace := trace w
       ++ [GetChatRoom;
           match chatRoomDoc (backend w) with
           | None => SetChatRoom | Some _ => UpdateChatRoom end;
           AddMessage; UpdateChatRoom];
     errorLog := errorLog w |}.
Proof.
  intros Ht Hu Hv Hs Hf.
  unfold exec, sendMessage. rewrite sendGuard_pass by done.
  destruct w as [[room docs ts] [msg msgs ld snd] fs tr log]; simpl in *. subst.
  unfold noFaults in Hf; simpl in Hf.
  destruct room as [d|];
    (next_request Hf; [|next_request Hf; [|next_request Hf; [|next_request Hf]]]);
    simpl; by rewrite <- ?app_assoc.
Qed.

Lemma noFaults_drop n w w' : faults w' = drop n (faults w) → noFaults w → noFaults w'.
Proof. unfold noFaults. intros ->. apply Forall_drop. Qed.

Lemma fresh_id_new (docs : list Message) : fresh (ids docs) ∉ ids docs.
Proof. apply infinite_is_fresh. Qed.

Lemma unreadOf_insert d userId n u :
  unreadCount d = Some (<[ userId := n ]> u) → unreadOf d userId = n.
Proof. unfold unreadOf. intros ->. simpl. by rewrite lookup_insert_eq. Qed.

(** C3. A send with a compose buffer that is non-empty after trimming, by a
    signed-in user who is not already sending, none of whose requests is
    rejected: an absent conversation record is created with the two
    participants, the new message (trimmed text, sender, unread) as
    last-message and the recipient's counter at 1; a present record keeps its
    participants, gets the new last-message and the recipient's counter set
    to the value read from the record plus 1; one message document with the
    trimmed text, the sender and read = false is appended under a new
    identifier, after the write that creates or updates the record; and a
    second send into the conversation created by the first leaves the
    recipient's counter at 2. *)
Theorem send_creates_or_increments_then_appends
    (me : User) (userId : string) (w : World) :
  Js.trim (message (screen w)) ≠ "" → uid me ≠ "" → userId ≠ "" →
  sending (screen w) = false → noFaults w →
  let w' := exec (sendMessage (Some me) userId) w in
  let last := newLastMessage me (message (screen w)) (serverTime (backend w)) in
  (chatRoomDoc (backend w) = None →
     chatRoomDoc (backend w')
     = Some {| participants := [uid me; userId];
               lastMessage := Some last;
               unreadCount := Some {[ userId := 1 ]};
               createdAt := serverTime (backend w) |})
  ∧ (∀ d, chatRoomDoc (backend w) = Some d →
     chatRoomDoc (backend w')
     = Some {| participants := participants d;
               lastMessage := Some last;
               unreadCount := Some (<[ userId := unreadOf d userId + 1 ]>
                                      (spread (unreadCount d)));
               createdAt := createdAt d |})
  ∧ (LastMessage.text last = Js.trim (message (screen w))
     ∧ LastMessage.senderId last = uid me ∧ LastMessage.read last = false)
  ∧ (∃ m, messageDocs (backend w') = messageDocs (backend w) ++ [m]
          ∧ text m = Js.trim (message (screen w)) ∧ senderId m = uid me
          ∧ read m = false ∧ id m ∉ ids (messageDocs (backend w)))
  ∧ (∃ write, trace w' = trace w ++ [GetChatRoom; write; AddMessage; UpdateChatRoom]
          ∧ (write = SetChatRoom ∨ write = UpdateChatRoom))
  ∧ (chatRoomDoc (backend w) = None → ∀ text2, Js.trim text2 ≠ "" →
     (λ d, unreadOf d userId)
       <$> chatRoomDoc (backend (exec (sendMessage (Some me) userId) (typeText text2 w')))
     = Some 2).
Proof.
  intros Ht Hu Hv Hs Hf w' last.
  pose proof (send_success me userId w Ht Hu Hv Hs Hf) as Hw. fold w' in Hw.
  split_and!.
  - intros Hroom. rewrite Hw. simpl. by rewrite Hroom.
  - intros d Hroom. rewrite Hw. simpl. by rewrite Hroom.
  - done.
  - done.
  - done.
  - eexists. rewrite Hw. simpl. split_and!; [done..|]. apply fresh_id_new.
  - rewrite Hw. simpl. destruct (chatRoomDoc (backend w)); eauto.
  - intros Hroom text2 Ht2.
    pose proof (send_success me userId (typeText text2 w')) as Hw2.
    rewrite Hw2.
    + rewrite Hw. simpl. rewrite Hroom. f_equal.
      eapply unreadOf_insert. simpl. f_equal.
      unfold unreadOf. simpl. by rewrite lookup_singleton_eq.
    + done.
    + done.
    + done.
    + by rewrite Hw.
    + eapply (noFaults_drop 4 w); [|done]. by rewrite Hw.
Qed.

Lemma send_creates_or_increments_then_appends_witness :
  Js.trim (message (screen aliceComposes)) ≠ "" ∧ uid alice ≠ "" ∧ "bob" ≠ ""
  ∧ sending (screen aliceComposes) = false ∧ noFaults aliceComposes
  ∧ chatRoomDoc (backend (exec (sendMessage (Some alice) "bob") aliceComposes))
    = Some {| participants := ["alice"; "bob"];
              lastMessage := Some (newLastMessage alice "hi" 100);
              unreadCount := Some {[ "bob" := 1 ]};
              createdAt := 100 |}
  ∧ (λ d, unreadOf d "bob")
      <$> chatRoomDoc (backend (exec (sendMessage (Some alice) "bob")
            (typeText "again" (exec (sendMessage (Some alice) "bob") aliceComposes))))
    = Some 2.
Proof.
  assert (Js.trim (message (screen aliceComposes)) ≠ "") as H1 by (vm_compute; discriminate).
  assert (uid alice ≠ "") as H2 by discriminate.
  assert ("bob" ≠ "") as H3 by discriminate.
  assert (sending (screen aliceComposes) = false) as H4 by reflexivity.
  assert (noFaults aliceComposes) as H5 by apply Forall_nil_2.
  destruct (send_creates_or_increments_then_appends alice "bob" aliceComposes
              H1 H2 H3 H4 H5) as (Hnew & _ & _ & _ & _ & Htwo).
  split_and!; [done..| |].
  - by apply Hnew.
  - apply Htwo; [done|]. vm_compute; discriminate.
Defined.

(** C8. For a send that passes the guard: the sending lock is released
    whatever happens; when one of its four requests is rejected the compose
    buffer is left as it was, hence not empty, and the error is logged; when
    none is rejected the buffer is cleared and nothing is logged.  So the
    buffer is cleared only on the fully successful path. *)
Theorem send_failure_keeps_buffer (me : User) (userId : string) (w : World) :
  Js.trim (message (screen w)) ≠ "" → uid me ≠ "" → userId ≠ "" →
  sending (screen w) = false →
  let w' := exec (sendMessage (Some me) userId) w in
  sending (screen w') = false
  ∧ (rejectedWithin 4 w = true →
       message (screen w') = message (screen w) ∧ message (screen w') ≠ ""
       ∧ errorLog w' = errorLog w ++ ["Error sending message:"])
  ∧ (rejectedWithin 4 w = false →
       message (screen w') = "" ∧ errorLog w' = errorLog w)
  ∧ (message (screen w') = "" → rejectedWithin 4 w = false).
Proof.
  intros Ht Hu Hv Hs w'.
  assert (message (screen w) ≠ "") as Hne.
  { intros H. rewrite H in Ht. by apply Ht. }
  subst w'. unfold exec, sendMessage. rewrite sendGuard_pass by done.
  destruct w as [[room docs ts] [msg msgs ld snd] fs tr log]; simpl in *. subst.
  unfold rejectedWithin; simpl.
  destruct room as [d|];
    destruct fs as [|[] [|[] [|[] [|[] fs]]]]; simpl;
    split_and!; intros; try done; by split_and!.
Qed.

Lemma send_failure_keeps_buffer_witness :
  let w := worldOf emptyBackend (composing "hi") [false; false; true] in
  Js.trim (message (screen w)) ≠ "" ∧ uid alice ≠ "" ∧ "bob" ≠ ""
  ∧ sending (screen w) = false ∧ rejectedWithin 4 w = true
  ∧ message (screen (exec (sendMessage (Some alice) "bob") w)) = "hi"
  ∧ sending (screen (exec (sendMessage (Some alice) "bob") w)) = false.
Proof.
  intros w.
  assert (Js.trim (message (screen w)) ≠ "") as H1 by (vm_compute; discriminate).
  assert (uid alice ≠ "") as H2 by discriminate.
  assert ("bob" ≠ "") as H3 by discriminate.
  assert (sending (screen w) = false) as H4 by reflexivity.
  assert (rejectedWithin 4 w = true) as H5 by reflexivity.
  destruct (send_failure_keeps_buffer alice "bob" w H1 H2 H3 H4)
    as (Hlock & Hfail & _).
  split_and!; [done..| |done].
  by destruct (Hfail H5) as [-> _].
Defined.

(** The revised screen's send, when no request is rejected. *)
Lemma revised_send_success me userId w :
  Js.trim (message (screen w)) ≠ "" → sending (screen w) = false → noFaults w →
  exec (ChatScreenRevised.sendMessage (Some me) userId) w =
  {| backend :=
       {| chatRoomDoc := Some
            match chatRoomDoc (backend w) with
            | None =>
              {| participants := [uid me; userId];
                 lastMessage := Some (ChatScreenRevised.newLastMessage me
                                        (message (screen w)) (serverTime (backend w)));
                 unreadCount := Some {[ userId := 1 ]};
                 createdAt := serverTime (backend w) |}
            | Some d =>
              {| participants := participants d;
                 lastMessage := Some (ChatScreenRevised.newLastMessage me
                                        (message (screen w)) (serverTime (backend w)));
                 unreadCount := Some (<[ userId := unreadOf d userId + 1 ]>
                                        (spread (unreadCount d)));
                 createdAt := createdAt d |}
            end;
          messageDocs := messageDocs (backend w)
            ++ [ChatScreenRevised.newMsg me (message (screen w))
                  (serverTime (backend w)) (fresh (ids (messageDocs (backend w))))];
          serverTime := serverTime (backend w) |};
     screen := {| message := ""; messages := messages (screen w);
                  loading := loading (screen w); sending := false |};
     faults := drop 3 (faults w);
     trace := trace w
       ++ [GetChatRoom;
           match chatRoomDoc (backend w) with
           | None => SetChatRoom | Some _ => UpdateChatRoom end;
           AddMessage];
     errorLog := errorLog w |}.
Proof.
  intros Ht%truthy_true Hs Hf.
  unfold exec, ChatScreenRevised.sendMessage. rewrite Ht, Hs. simpl.
  destruct w as [[room docs ts] [msg msgs ld snd] fs tr log]; simpl in *. subst.
  unfold noFaults in Hf; simpl in Hf.
  destruct room as [d|];
    (next_request Hf; [|next_request Hf; [|next_request Hf]]);
    simpl; by rewrite <- ?app_assoc.
Qed.

(** C10. A send that finds the conversation record, in either version of
    the screen: the update writes an unread-counter map in which the
    recipient's entry is the value read, a missing entry or a missing map
    counting as zero, plus 1, so it is 1 when the record has no entry for
    the recipient and is always present and at least 1; every other entry,
    the sender's own included, is as it was. *)
Theorem send_increment_total
    (me : User) (userId : string) (w : World) (d : ChatRoomData) :
  Js.trim (message (screen w)) ≠ "" → uid me ≠ "" → userId ≠ "" →
  sending (screen w) = false → noFaults w →
  chatRoomDoc (backend w) = Some d →
  ∀ w', w' = exec (sendMessage (Some me) userId) w
        ∨ w' = exec (ChatScreenRevised.sendMessage (Some me) userId) w →
  ∃ d' u, chatRoomDoc (backend w') = Some d' ∧ unreadCount d' = Some u
    ∧ u !! userId = Some (unreadOf d userId + 1)
    ∧ ((unreadCount d ≫= λ m, m !! userId) = None → u !! userId = Some 1)
    ∧ (∀ k, k ≠ userId → u !! k = spread (unreadCount d) !! k)
    ∧ (uid me ≠ userId → u !! uid me = spread (unreadCount d) !! uid me).
Proof.
  intros Ht Hu Hv Hs Hf Hroom w' Hw'.
  assert (chatRoomDoc (backend w') ≫= unreadCount
          = Some (<[ userId := unreadOf d userId + 1 ]> (spread (unreadCount d))))
    as Hcount.
  { destruct Hw' as [-> | ->].
    - rewrite send_success by done. simpl. by rewrite Hroom.
    - rewrite revised_send_success by done. simpl. by rewrite Hroom. }
  destruct (chatRoomDoc (backend w')) as [d'|]; [|done]. simpl in Hcount.
  exists d', (<[ userId := unreadOf d userId + 1 ]> (spread (unreadCount d))).
  split_and!; [done..| | | |].
  - apply lookup_insert_eq.
  - intros Hnone. rewrite lookup_insert_eq. unfold unreadOf. by rewrite Hnone.
  - intros k Hk. by apply lookup_insert_ne.
  - intros Hk. by apply lookup_insert_ne.
Qed.

Lemma send_increment_total_witness :
  Js.trim (message (screen aliceComposesAgain)) ≠ "" ∧ uid alice ≠ "" ∧ "bob" ≠ ""
  ∧ sending (screen aliceComposesAgain) = false ∧ noFaults aliceComposesAgain
  ∧ chatRoomDoc (backend aliceComposesAgain) = Some roomWithoutBob
  ∧ (unreadCount roomWithoutBob ≫= λ m, m !! "bob") = None
  ∧ ∃ d' u,
      chatRoomDoc (backend (exec (sendMessage (Some alice) "bob") aliceComposesAgain))
      = Some d'
      ∧ unreadCount d' = Some u ∧ u !! "bob" = Some 1 ∧ u !! "alice" = Some 3.
Proof.
  assert (Js.trim (message (screen aliceComposesAgain)) ≠ "") as H1
    by (vm_compute; discriminate).
  assert (uid alice ≠ "") as H2 by discriminate.
  assert ("bob" ≠ "") as H3 by discriminate.
  assert (sending (screen aliceComposesAgain) = false) as H4 by reflexivity.
  assert (noFaults aliceComposesAgain) as H5 by apply Forall_nil_2.
  assert (chatRoomDoc (backend aliceComposesAgain) = Some roomWithoutBob) as H6
    by reflexivity.
  assert ((unreadCount roomWithoutBob ≫= λ m, m !! "bob") = None) as H7
    by (vm_compute; reflexivity).
  destruct (send_increment_total alice "bob" aliceComposesAgain roomWithoutBob
              H1 H2 H3 H4 H5 H6 _ (or_introl eq_refl))
    as (d' & u & Hd' & Hu & _ & Hone & _ & Hown).
  split_and!; [done..|].
  exists d', u. split_and!; [done|done|by apply Hone|].
  etrans; [apply Hown; discriminate|]. vm_compute; reflexivity.
Defined.

End SendFacts.

(** ** The read-receipt marker *)

Module ReadFacts.
Import ChatScreen.

Lemma id_setRead b m : id (setRead b m) = id m.
Proof. done. Qed.

Lemma ids_updateIn i f docs :
  (∀ m, id (f m) = id m) → ids (updateIn i f docs) = ids docs.
Proof.
  intros Hf. unfold ids, updateIn. rewrite <- list_fmap_compose.
  apply list_fmap_ext. intros _ m _. simpl. by destruct (String.eqb _ _).
Qed.

Lemma ids_markAll sel docs : ids (markAll sel docs) = ids docs.
Proof.
  unfold ids, markAll. rewrite <- list_fmap_compose.
  apply list_fmap_ext. intros _ m _. simpl. by case_bool_decide.
Qed.

Lemma markAll_nil docs : markAll [] docs = docs.
Proof.
  unfold markAll. rewrite <- (list_fmap_id docs) at 2.
  apply list_fmap_ext. intros _ m _. rewrite bool_decide_eq_false_2; [done|].
  apply not_elem_of_nil.
Qed.

Lemma setRead_setRead b m : setRead b (setRead b m) = setRead b m.
Proof. done. Qed.

(** The batch of [read: true] updates, applied one write after the other,
    marks exactly the listed documents. *)
Lemma applyBatch_markRead unread docs :
  applyBatch (markReadWrites unread) docs = markAll (ids unread) docs.
Proof.
  unfold applyBatch. revert docs. induction unread as [|x l IH]; intros docs; simpl.
  { by rewrite markAll_nil. }
  rewrite IH. unfold markAll, updateIn. rewrite <- list_fmap_compose.
  apply list_fmap_ext. intros _ m _. simpl.
  destruct (String.eqb_spec (id m) (id x)) as [E|E].
  - rewrite (bool_decide_eq_true_2 (id m ∈ id x :: ids l)) by (rewrite E; left).
    rewrite id_setRead. by case_bool_decide.
  - destruct (decide (id m ∈ ids l)) as [Hin|Hin].
    + rewrite !bool_decide_eq_true_2; [done|by right|done].
    + rewrite !bool_decide_eq_false_2; [done| |done].
      intros [?|?]%elem_of_cons; done.
Qed.

Lemma markAll_idemp sel docs : markAll sel (markAll sel docs) = markAll sel docs.
Proof.
  unfold markAll. rewrite <- list_fmap_compose.
  apply list_fmap_ext. intros _ m _. simpl.
  destruct (decide (id m ∈ sel)) as [Hin|Hin].
  - rewrite (bool_decide_eq_true_2 _ Hin). by rewrite id_setRead, (bool_decide_eq_true_2 _ Hin).
  - by rewrite !(bool_decide_eq_false_2 _ Hin).
Qed.

Lemma markReadWrites_ids unread : (markReadWrites unread).*1 = ids unread.
Proof.
  unfold markReadWrites, ids. rewrite <- list_fmap_compose. done.
Qed.

Lemma markReadWrites_present unread (docs : list Message) :
  forallb (λ w : string * (Message → Message), bool_decide (w.1 ∈ ids docs))
    (markReadWrites unread)
  = forallb (λ m, bool_decide (id m ∈ ids docs)) unread.
Proof. induction unread as [|x l IH]; simpl; [done|]. by rewrite IH. Qed.

(** The listener's callback, in full, whatever the fault plan. *)
Lemma onMessages_run cu snap w :
  onMessages cu snap w =
  (Returned (),
   {| backend :=
        {| chatRoomDoc := chatRoomDoc (backend w);
           messageDocs :=
             if batchCommitted (List.filter (isUnread cu) snap) w
             then markAll (ids (List.filter (isUnread cu) snap)) (messageDocs (backend w))
             else messageDocs (backend w);
           serverTime := serverTime (backend w) |};
      screen := {| message := message (screen w); messages := snap;
                   loading := false; sending := sending (screen w) |};
      faults := if 0 <? length (List.filter (isUnread cu) snap)
                then tail (faults w) else faults w;
      trace := trace w
        ++ (if 0 <? length (List.filter (isUnread cu) snap)
            then [CommitBatch (ids (List.filter (isUnread cu) snap))] else []);
      errorLog := errorLog w |}).
Proof.
  unfold onMessages, batchCommitted.
  destruct w as [[room docs ts] [msg msgs ld snd] fs tr log]; simpl.
  generalize (List.filter (isUnread cu) snap). intros unread.
  destruct (0 <? length unread) eqn:Hlen; simpl.
  - unfold mbind, action_bind, setMessages, setLoading, notAwaited, commitBatch,
      mbind, action_bind, request, getBackend, putBackend, withScreen, withBackend.
    simpl. rewrite markReadWrites_ids.
    destruct fs as [|[] fs]; simpl; try done;
      rewrite markReadWrites_present;
      destruct (forallb _ unread); simpl; by rewrite ?applyBatch_markRead.
  - unfold mbind, action_bind, setMessages, setLoading, mret, action_ret,
      withScreen. simpl. by rewrite app_nil_r.
Qed.

Lemma isUnread_qualifies cu m : isUnread cu m = true ↔ qualifies cu m.
Proof.
  unfold isUnread, qualifies, currentUid.
  rewrite andb_true_iff, negb_true_iff.
  destruct (uid <$> cu) as [u|]; simpl.
  - rewrite negb_true_iff, String.eqb_neq. split; intros [H ?]; (split; [|done]); congruence.
  - split; intros [_ ?]; done.
Qed.

Lemma elem_of_unread cu snap m :
  m ∈ List.filter (isUnread cu) snap ↔ m ∈ snap ∧ qualifies cu m.
Proof.
  rewrite !list_elem_of_In, filter_In, isUnread_qualifies. done.
Qed.

Lemma markAll_lookup sel docs i :
  markAll sel docs !! i
  = (λ m, if bool_decide (id m ∈ sel) then setRead true m else m) <$> docs !! i.
Proof. unfold markAll. apply list_lookup_fmap. Qed.

(** C4. The callback of the marking listener, for every snapshot and every
    state of the store: the messages selected are exactly those of the
    snapshot whose sender is not the current user and whose read flag is
    false; the only request issued is one batch commit naming exactly their
    documents (none at all when nothing is selected), never a write per
    message; the batch is atomic, the collection afterwards being either
    the old one with every named document marked read or the old one
    unchanged, and it is the former when the batch is accepted; a document
    that is not named is never written; with pairwise distinct identifiers
    in the snapshot, no message that is the current user's own or already
    read is named; and the conversation record is not touched. *)
Theorem mark_read_single_atomic_batch
    (currentUser : option User) (newMessages : list Message) (w : World) :
  let unread := List.filter (isUnread currentUser) newMessages in
  let w' := exec (onMessages currentUser newMessages) w in
  (∀ m, m ∈ unread ↔ m ∈ newMessages ∧ qualifies currentUser m)
  ∧ trace w' = trace w
      ++ (if bool_decide (unread = []) then [] else [CommitBatch (ids unread)])
  ∧ (messageDocs (backend w') = markAll (ids unread) (messageDocs (backend w))
     ∨ messageDocs (backend w') = messageDocs (backend w))
  ∧ (batchCommitted unread w = true →
     messageDocs (backend w') = markAll (ids unread) (messageDocs (backend w))
     ∧ ∀ i m, messageDocs (backend w) !! i = Some m → id m ∈ ids unread →
         messageDocs (backend w') !! i = Some (setRead true m))
  ∧ (∀ i m, messageDocs (backend w) !! i = Some m → id m ∉ ids unread →
       messageDocs (backend w') !! i = Some m)
  ∧ (NoDup (ids newMessages) →
     ∀ m, m ∈ newMessages → ¬ qualifies currentUser m → id m ∉ ids unread)
  ∧ chatRoomDoc (backend w') = chatRoomDoc (backend w).
Proof.
  intros unread w'. subst w'. unfold exec. rewrite onMessages_run. fold unread. simpl.
  split_and!.
  - intros m. apply elem_of_unread.
  - f_equal. by destruct unread.
  - destruct (batchCommitted unread w); [by left|by right].
  - intros ->. split; [done|]. intros i m Hi Hin.
    by rewrite markAll_lookup, Hi; simpl; rewrite bool_decide_eq_true_2.
  - intros i m Hi Hin. destruct (batchCommitted unread w); [|done].
    by rewrite markAll_lookup, Hi; simpl; rewrite bool_decide_eq_false_2.
  - intros Hnd m Hm Hq (m' & Hid & [Hm' Hq']%elem_of_unread)%list_elem_of_fmap.
    assert (m = m') as ->; [|done].
    apply list_elem_of_lookup in Hm as [i Hi]. apply list_elem_of_lookup in Hm' as [j Hj].
    assert (i = j) as ->; [|congruence].
    eapply NoDup_lookup; [exact Hnd| |].
    + unfold ids. by rewrite list_lookup_fmap, Hi.
    + unfold ids. rewrite list_lookup_fmap, Hj. simpl. by rewrite Hid.
  - done.
Qed.

Lemma mark_read_single_atomic_batch_witness :
  batchCommitted (List.filter (isUnread (Some bob)) bobsSnapshot) afterTwoSends = true
  ∧ NoDup (ids bobsSnapshot)
  ∧ read <$> messageDocs (backend (exec (onMessages (Some bob) bobsSnapshot) afterTwoSends))
    = [true; true]
  ∧ trace (exec (onMessages (Some bob) bobsSnapshot) afterTwoSends)
    = trace afterTwoSends ++ [CommitBatch ["0"; "1"]].
Proof.
  assert (batchCommitted (List.filter (isUnread (Some bob)) bobsSnapshot) afterTwoSends
          = true) as H1 by (vm_compute; reflexivity).
  assert (NoDup (ids bobsSnapshot)) as H2 by decide_by_compute.
  destruct (mark_read_single_atomic_batch (Some bob) bobsSnapshot afterTwoSends)
    as (_ & Htrace & _ & Hall & _ & _ & _).
  split_and!; [done..| |].
  - destruct (Hall H1) as [-> _]. vm_compute; reflexivity.
  - etrans; [exact Htrace|]. vm_compute; reflexivity.
Defined.

Lemma exec_seq (a b : Action unit) w :
  (a w).1 = Returned () → exec (a ;; b) w = exec b (exec a w).
Proof.
  unfold exec, mbind, action_bind. destruct (a w) as [[[]|e] w1]; simpl; [done|].
  intros [=].
Qed.

Lemma lastMessageUnread_spec userId d :
  lastMessageUnread userId d = true
  ↔ ∃ l, lastMessage d = Some l ∧ LastMessage.senderId l = userId
         ∧ LastMessage.read l = false.
Proof.
  unfold lastMessageUnread. destruct (lastMessage d) as [l|].
  - rewrite andb_true_iff, negb_true_iff, String.eqb_eq. split.
    + intros [? ?]. by exists l.
    + intros (l' & [= <-] & ? & ?). done.
  - split; [done|]. intros (l & [=] & _).
Qed.

Lemma lastMessageUnread_marked userId u d :
  lastMessageUnread userId (markSummaryRead u d) = false.
Proof.
  unfold lastMessageUnread, markSummaryRead. simpl.
  destruct (lastMessage d); simpl; [|done]. apply andb_false_r.
Qed.

(** The summary action, when its requests are not rejected. *)
Lemma markReadEffect_spec cu userId w :
  noFaults w →
  (markReadEffect cu userId w).1 = Returned ()
  ∧ backend (exec (markReadEffect cu userId) w)
    = {| chatRoomDoc := acknowledged cu userId (chatRoomDoc (backend w));
         messageDocs := messageDocs (backend w);
         serverTime := serverTime (backend w) |}
  ∧ screen (exec (markReadEffect cu userId) w) = screen w
  ∧ errorLog (exec (markReadEffect cu userId) w) = errorLog w
  ∧ noFaults (exec (markReadEffect cu userId) w).
Proof.
  intros Hf. unfold exec, markReadEffect, acknowledged, currentUid.
  destruct w as [[room docs ts] sc fs tr log]. unfold noFaults in *; simpl in *.
  destruct (uid <$> cu) as [u|]; simpl; [|done].
  destruct (Js.truthy u && Js.truthy userId); simpl; [|done].
  destruct room as [d|]; simpl.
  - unfold markMessagesAsRead, tryCatch, getChatRoom, mbind, action_bind, request,
      getBackend, mret, action_ret; simpl.
    next_request Hf; simpl.
    + destruct (lastMessageUnread userId d); simpl; split_and!; done.
    + destruct (lastMessageUnread userId d); simpl; [|done].
      next_request Hf; simpl; split_and!; done.
  - unfold markMessagesAsRead, tryCatch, getChatRoom, mbind, action_bind, request,
      getBackend, mret, action_ret; simpl.
    next_request Hf; simpl; split_and!; done.
Qed.

Lemma batchCommitted_noFaults unread w :
  noFaults w →
  batchCommitted unread w
  = (0 <? length unread)
    && forallb (λ m, bool_decide (id m ∈ ids (messageDocs (backend w)))) unread.
Proof.
  unfold noFaults, batchCommitted. intros Hf.
  destruct (faults w) as [|b fs]; simpl; [by rewrite andb_true_r|].
  apply Forall_cons in Hf as [-> _]. by rewrite andb_true_r.
Qed.

Lemma onMessages_noFaults cu snap w :
  noFaults w → noFaults (exec (onMessages cu snap) w).
Proof.
  unfold exec, noFaults. rewrite onMessages_run. simpl. intros Hf.
  destruct (0 <? length _); [|done].
  destruct (faults w); [done|]. by apply Forall_cons in Hf as [_ ?].
Qed.

Lemma readMarking_exec cu userId snap w :
  exec (readMarking cu userId snap) w
  = exec (markReadEffect cu userId) (exec (onMessages cu snap) w).
Proof. unfold readMarking. apply exec_seq. by rewrite onMessages_run. Qed.

Lemma acknowledged_idemp cu userId room :
  acknowledged cu userId (acknowledged cu userId room) = acknowledged cu userId room.
Proof.
  unfold acknowledged. destruct (uid <$> cu) as [u|]; [|done].
  destruct (Js.truthy u && Js.truthy userId); [|done].
  destruct room as [d|]; simpl; [|done]. f_equal.
  destruct (lastMessageUnread userId d) eqn:E.
  - by rewrite lastMessageUnread_marked.
  - by rewrite E.
Qed.

(** Read-marking for a snapshot, when no request is rejected. *)
Lemma readMarking_spec cu userId snap w :
  noFaults w →
  backend (exec (readMarking cu userId snap) w)
  = {| chatRoomDoc := acknowledged cu userId (chatRoomDoc (backend w));
       messageDocs :=
         if (0 <? length (List.filter (isUnread cu) snap))
            && forallb (λ m, bool_decide (id m ∈ ids (messageDocs (backend w))))
                 (List.filter (isUnread cu) snap)
         then markAll (ids (List.filter (isUnread cu) snap)) (messageDocs (backend w))
         else messageDocs (backend w);
       serverTime := serverTime (backend w) |}
  ∧ screen (exec (readMarking cu userId snap) w)
    = {| message := message (screen w); messages := snap; loading := false;
         sending := sending (screen w) |}
  ∧ errorLog (exec (readMarking cu userId snap) w) = errorLog w
  ∧ noFaults (exec (readMarking cu userId snap) w).
Proof.
  intros Hf. rewrite readMarking_exec.
  pose proof (onMessages_noFaults cu snap w Hf) as Hf1.
  destruct (markReadEffect_spec cu userId _ Hf1) as (_ & Hb & Hs & He & Hf2).
  split_and!; [| | |done].
  - rewrite Hb. unfold exec. rewrite onMessages_run. simpl.
    by rewrite batchCommitted_noFaults.
  - rewrite Hs. unfold exec. by rewrite onMessages_run.
  - rewrite He. unfold exec. by rewrite onMessages_run.
Qed.

(** C6. Read-marking (the message-level batch and the conversation-summary
    action) applied to a snapshot, when no request is rejected: applying it
    a second time to the same snapshot leaves the store, the screen and the
    error log as the first application left them. *)
Theorem read_marking_idempotent
    (currentUser : option User) (userId : string)
    (newMessages : list Message) (w : World) :
  noFaults w →
  let once := exec (readMarking currentUser userId newMessages) w in
  let twice := exec (readMarking currentUser userId newMessages) once in
  backend twice = backend once
  ∧ screen twice = screen once
  ∧ errorLog twice = errorLog once.
Proof.
  intros Hf once twice.
  destruct (readMarking_spec currentUser userId newMessages w Hf)
    as (Hb & Hs & He & Hf1). fold once in Hb, Hs, He, Hf1.
  destruct (readMarking_spec currentUser userId newMessages once Hf1)
    as (Hb2 & Hs2 & He2 & _). fold twice in Hb2, Hs2, He2.
  split_and!.
  - rewrite Hb2, Hb. simpl. rewrite acknowledged_idemp. f_equal.
    destruct (0 <? length _); simpl; [|done].
    destruct (forallb _ _) eqn:E; simpl.
    + by rewrite ids_markAll, E, markAll_idemp.
    + by rewrite E.
  - rewrite Hs2, Hs. done.
  - by rewrite He2.
Qed.

Lemma read_marking_idempotent_witness :
  noFaults afterTwoSends
  ∧ backend (exec (readMarking (Some bob) "alice" bobsSnapshot)
               (exec (readMarking (Some bob) "alice" bobsSnapshot) afterTwoSends))
    = backend (exec (readMarking (Some bob) "alice" bobsSnapshot) afterTwoSends).
Proof.
  assert (noFaults afterTwoSends) as H by apply Forall_nil_2.
  split; [done|].
  apply (read_marking_idempotent (Some bob) "alice" bobsSnapshot afterTwoSends H).
Defined.

Lemma elem_of_queryMessages b m : m ∈ queryMessages b ↔ m ∈ messageDocs b.
Proof. unfold queryMessages. by rewrite merge_sort_Permutation. Qed.

Lemma effectGuard_pass viewer userId :
  uid viewer ≠ "" → userId ≠ "" → effectGuard (Some viewer) userId = true.
Proof.
  intros Hu%SendFacts.truthy_true Hv%SendFacts.truthy_true.
  unfold effectGuard. simpl. by rewrite Hu, Hv.
Qed.

(** The first snapshot pushed to the viewer's listener marks every message
    of the collection that qualifies. *)
Lemma deliverSnapshot_spec viewer userId w :
  uid viewer ≠ "" → userId ≠ "" → noFaults w →
  let unread := List.filter (isUnread (Some viewer)) (queryMessages (backend w)) in
  (deliverSnapshot (Some viewer) userId w).1 = Returned ()
  ∧ backend (exec (deliverSnapshot (Some viewer) userId) w)
    = {| chatRoomDoc := chatRoomDoc (backend w);
         messageDocs := markAll (ids unread) (messageDocs (backend w));
         serverTime := serverTime (backend w) |}
  ∧ noFaults (exec (deliverSnapshot (Some viewer) userId) w).
Proof.
  intros Hu Hv Hf unread.
  assert (deliverSnapshot (Some viewer) userId w
          = onMessages (Some viewer) (queryMessages (backend w)) w) as Hrun.
  { unfold deliverSnapshot. by rewrite effectGuard_pass. }
  unfold exec. rewrite Hrun.
  split_and!; [by rewrite onMessages_run| |by apply onMessages_noFaults].
  rewrite onMessages_run. fold unread. simpl.
  rewrite batchCommitted_noFaults by done.
  assert (forallb (λ m, bool_decide (id m ∈ ids (messageDocs (backend w)))) unread
          = true) as ->.
  { apply forallb_forall. intros m Hm%list_elem_of_In.
    apply elem_of_unread in Hm as [Hm _]. apply elem_of_queryMessages in Hm.
    apply bool_decide_eq_true_2, list_elem_of_fmap. eauto. }
  rewrite andb_true_r. destruct unread; simpl; [by rewrite markAll_nil|done].
Qed.

Lemma marked_all_read viewer b m :
  m ∈ markAll (ids (List.filter (isUnread (Some viewer)) (queryMessages b)))
        (messageDocs b) →
  senderId m ≠ uid viewer → read m = true.
Proof.
  unfold markAll. intros (m0 & -> & Hm0)%list_elem_of_fmap Hs.
  case_bool_decide as Hin; [done|].
  destruct (read m0) eqn:Hr; [done|]. destruct Hin.
  apply list_elem_of_fmap. exists m0. split; [done|].
  apply elem_of_unread. split; [by apply elem_of_queryMessages|].
  split; [|done]. simpl. congruence.
Qed.

(** C5. The viewer opens a conversation whose record exists, no request
    being rejected.  When the last message was sent by the other
    participant and is not read, the summary action sets the last-message
    read flag and puts the viewer's unread counter at zero, and touches
    nothing else; when the last message was not sent by the other
    participant (in particular when the viewer sent it) or is already read,
    or there is none, the store is left as it is.  Together with the
    message-level marking of the first snapshot, in the first case every
    message not sent by the viewer ends up read, no message is added or
    removed, the last-message read flag is true and the viewer's counter
    is 0. *)
Theorem open_acknowledges_summary
    (viewer : User) (userId : string) (w : World) (d : ChatRoomData) :
  uid viewer ≠ "" → userId ≠ "" → noFaults w →
  chatRoomDoc (backend w) = Some d →
  let w1 := exec (markReadEffect (Some viewer) userId) w in
  let w2 := exec (openConversation (Some viewer) userId) w in
  (∀ l, lastMessage d = Some l → LastMessage.senderId l = userId →
        LastMessage.read l = false →
     chatRoomDoc (backend w1)
     = Some {| participants := participants d;
               lastMessage := Some (LastMessage.setRead true l);
               unreadCount := Some (<[ uid viewer := 0 ]> (spread (unreadCount d)));
               createdAt := createdAt d |}
     ∧ messageDocs (backend w1) = messageDocs (backend w)
     ∧ (∀ m, m ∈ messageDocs (backend w2) → senderId m ≠ uid viewer → read m = true)
     ∧ ids (messageDocs (backend w2)) = ids (messageDocs (backend w))
     ∧ ∃ d2, chatRoomDoc (backend w2) = Some d2
             ∧ LastMessage.read <$> lastMessage d2 = Some true
             ∧ (unreadCount d2 ≫= λ u, u !! uid viewer) = Some 0)
  ∧ ((∀ l, lastMessage d = Some l →
           LastMessage.senderId l ≠ userId ∨ LastMessage.read l = true) →
     backend w1 = backend w)
  ∧ (uid viewer ≠ userId →
     ∀ l, lastMessage d = Some l →
          LastMessage.senderId l = uid viewer ∨ LastMessage.read l = true →
     backend w1 = backend w).
Proof.
  intros Hu Hv Hf Hroom w1 w2.
  destruct (markReadEffect_spec (Some viewer) userId w Hf) as (_ & Hb1 & _).
  fold w1 in Hb1.
  assert (acknowledged (Some viewer) userId (Some d)
          = Some (if lastMessageUnread userId d
                  then markSummaryRead (uid viewer) d else d)) as Hack.
  { unfold acknowledged. simpl.
    apply SendFacts.truthy_true in Hu, Hv. by rewrite Hu, Hv. }
  assert ((∀ l, lastMessage d = Some l →
             LastMessage.senderId l ≠ userId ∨ LastMessage.read l = true) →
          backend w1 = backend w) as Hsame.
  { intros Hno. rewrite Hb1, Hroom, Hack.
    destruct (lastMessageUnread userId d) eqn:E.
    - apply lastMessageUnread_spec in E as (l & Hl & Hs & Hr).
      destruct (Hno l Hl) as [?|?]; congruence.
    - rewrite <- Hroom. by destruct (backend w). }
  split_and!; [|done|].
  - intros l Hl Hs Hr.
    assert (lastMessageUnread userId d = true) as E.
    { apply lastMessageUnread_spec. eauto. }
    rewrite E in Hack.
    destruct (deliverSnapshot_spec viewer userId w Hu Hv Hf) as (Hret & Hbd & Hfd).
    assert (w2 = exec (markReadEffect (Some viewer) userId)
                   (exec (deliverSnapshot (Some viewer) userId) w)) as Hw2.
    { unfold w2, openConversation. by apply exec_seq. }
    destruct (markReadEffect_spec (Some viewer) userId _ Hfd) as (_ & Hb2 & _).
    rewrite <- Hw2, Hbd in Hb2. simpl in Hb2. rewrite Hroom, Hack in Hb2.
    rewrite Hb1, Hb2, Hroom, Hack. simpl.
    split_and!.
    + unfold markSummaryRead. by rewrite Hl.
    + done.
    + intros m. apply marked_all_read.
    + apply ids_markAll.
    + eexists. split; [done|]. unfold markSummaryRead. simpl. rewrite Hl. simpl.
      split; [done|]. apply lookup_insert_eq.
  - intros Hne l Hl Hor. apply Hsame. intros l' Hl'.
    assert (l' = l) as -> by congruence.
    destruct Hor as [Hs|?]; [left; congruence|by right].
Qed.

Lemma open_acknowledges_summary_witness :
  uid bob ≠ "" ∧ "alice" ≠ "" ∧ noFaults afterTwoSends
  ∧ chatRoomDoc (backend afterTwoSends) = Some roomAfterTwoSends
  ∧ read <$> messageDocs (backend afterTwoSends) = [false; false]
  ∧ read <$> messageDocs (backend (exec (openConversation (Some bob) "alice") afterTwoSends))
    = [true; true]
  ∧ ∃ d2, chatRoomDoc (backend (exec (openConversation (Some bob) "alice") afterTwoSends))
          = Some d2
          ∧ LastMessage.read <$> lastMessage d2 = Some true
          ∧ (unreadCount d2 ≫= λ u, u !! "bob") = Some 0.
Proof.
  assert (uid bob ≠ "") as H1 by discriminate.
  assert ("alice" ≠ "") as H2 by discriminate.
  assert (noFaults afterTwoSends) as H3 by apply Forall_nil_2.
  assert (chatRoomDoc (backend afterTwoSends) = Some roomAfterTwoSends) as H4
    by (vm_compute; reflexivity).
  destruct (open_acknowledges_summary bob "alice" afterTwoSends roomAfterTwoSends
              H1 H2 H3 H4) as (Hopen & _).
  destruct (Hopen (newLastMessage alice "again" 100) eq_refl eq_refl eq_refl)
    as (_ & _ & _ & _ & Hsummary).
  split_and!; [done..|vm_compute; reflexivity|vm_compute; reflexivity|exact Hsummary].
Defined.

End ReadFacts.

(** ** The reaction update *)

Module ReactionFacts.
Import ChatScreen.

Lemma removeUser_lookup user (m : reactionMap) k j :
  removeUser user m k !! j
  = if decide (j = k) then m !! k ≫= withoutUser user else m !! j.
Proof.
  unfold removeUser, withoutUser.
  destruct (m !! k) as [users|] eqn:Hk; simpl.
  - destruct (indexOf user users) as [i|]; simpl.
    + destruct (length (delete i users) =? 0).
      * case_decide as E; [subst; apply lookup_delete_eq|by apply lookup_delete_ne].
      * case_decide as E; [subst; apply lookup_insert_eq|by apply lookup_insert_ne].
    + case_decide; by subst.
  - case_decide; by subst.
Qed.

(** The removal loop handles each key once, so the order in which
    [Object.keys] lists them does not matter. *)
Lemma foldl_removeUser_lookup user ks (m : reactionMap) j :
  NoDup ks →
  foldl (removeUser user) m ks !! j
  = if decide (j ∈ ks) then m !! j ≫= withoutUser user else m !! j.
Proof.
  revert m. induction ks as [|k ks IH]; intros m Hnd.
  { destruct (decide (j ∈ [])) as [H|?]; [by apply elem_of_nil in H|done]. }
  apply NoDup_cons in Hnd as [Hk Hnd].
  change (foldl (removeUser user) m (k :: ks))
    with (foldl (removeUser user) (removeUser user m k) ks).
  rewrite IH by done.
  rewrite !removeUser_lookup.
  destruct (decide (j ∈ ks)) as [Hin|Hin].
  - rewrite decide_False by (intros ->; done).
    rewrite decide_True; [done|by right].
  - destruct (decide (j = k)) as [->|Hne].
    + rewrite decide_True; [done|left].
    + rewrite decide_False; [done|]. intros [?|?]%elem_of_cons; done.
Qed.

Lemma removePrevious_lookup user (m : reactionMap) j :
  removePrevious user m !! j = m !! j ≫= withoutUser user.
Proof.
  unfold removePrevious, keys.
  rewrite foldl_removeUser_lookup by apply NoDup_fst_map_to_list.
  case_decide as Hin; [done|].
  destruct (m !! j) as [l|] eqn:Hj; [|done].
  destruct Hin. apply list_elem_of_fmap. exists (j, l). split; [done|].
  by apply elem_of_map_to_list.
Qed.

Lemma updatedReactions_lookup user emoji (m : reactionMap) j :
  updatedReactions user emoji m !! j
  = if decide (j = emoji)
    then Some (default [] (m !! emoji ≫= withoutUser user) ++ [user])
    else m !! j ≫= withoutUser user.
Proof.
  unfold updatedReactions, addReaction.
  pose proof (removePrevious_lookup user m) as Hrp.
  destruct (decide (j = emoji)) as [->|Hne].
  - rewrite lookup_alter_eq.
    destruct (removePrevious user m !! emoji) as [l|] eqn:He.
    + rewrite He. simpl. by rewrite <- Hrp, He.
    + rewrite lookup_insert_eq. simpl. by rewrite <- Hrp, He.
  - rewrite lookup_alter_ne by done.
    destruct (removePrevious user m !! emoji); [done|].
    by rewrite lookup_insert_ne.
Qed.

Lemma indexOf_None x (l : list string) : indexOf x l = None ↔ x ∉ l.
Proof.
  induction l as [|y l IH]; simpl.
  - split; [intros _; apply not_elem_of_nil|done].
  - destruct (String.eqb_spec y x) as [->|Hne].
    + split; [done|]. intros H. destruct H. left.
    + rewrite not_elem_of_cons. destruct (indexOf x l); simpl.
      * split; [done|]. intros [_ H]. by apply IH in H.
      * split; [|done]. intros _. split; [done|]. by apply IH.
Qed.

Lemma indexOf_Some_NoDup x (l : list string) i :
  NoDup l → indexOf x l = Some i → (x ∉ delete i l) ∧ NoDup (delete i l).
Proof.
  revert i. induction l as [|y l IH]; intros i Hnd; simpl; [done|].
  apply NoDup_cons in Hnd as [Hy Hnd].
  destruct (String.eqb_spec y x) as [->|Hne].
  - intros [= <-]. done.
  - destruct (indexOf x l) as [j|]; simpl; [|done].
    intros [= <-]. destruct (IH j Hnd eq_refl) as [Hx Hnd']. simpl. split.
    + apply not_elem_of_cons. done.
    + apply NoDup_cons. split; [|done].
      intros Hin. apply Hy. by eapply list_elem_of_delete_inv.
Qed.

Lemma withoutUser_set user users users' :
  NoDup users → withoutUser user users = Some users' →
  (user ∉ users') ∧ NoDup users'.
Proof.
  unfold withoutUser. intros Hnd.
  destruct (indexOf user users) as [i|] eqn:E.
  - destruct ((length (delete i users)) =? 0); [done|]. intros [= <-].
    by apply indexOf_Some_NoDup.
  - intros [= <-]. split; [by apply indexOf_None|done].
Qed.

Lemma withoutUser_nonempty user users :
  users ≠ [] → withoutUser user users ≠ Some [].
Proof.
  unfold withoutUser. intros Hne.
  destruct (indexOf user users) as [i|]; [|congruence].
  destruct (delete i users) as [|x l]; simpl; [done|]. done.
Qed.

(** What [handleReaction] writes when the message exists and its two
    requests are not rejected. *)
Lemma handleReaction_writes me messageId emoji w messageData :
  uid me ≠ "" → noFaults w →
  findMessage messageId (messageDocs (backend w)) = Some messageData →
  messageDocs (backend (exec (handleReaction (Some me) messageId emoji) w))
  = updateIn messageId
      (setReactions
         (Some (updatedReactions (uid me) emoji (default ∅ (reactions messageData)))))
      (messageDocs (backend w)).
Proof.
  intros Hu%SendFacts.truthy_true Hf Hfind.
  unfold exec, handleReaction. simpl. rewrite Hu. simpl.
  destruct w as [[room docs ts] sc fs tr log]. unfold noFaults in Hf. simpl in *.
  unfold tryCatch, getMessage, updateMessage, mbind, action_bind, request,
    getBackend, putBackend, withBackend, mret, action_ret; simpl.
  next_request Hf; simpl; rewrite Hfind; simpl.
  - by rewrite Hfind.
  - next_request Hf; simpl; by rewrite Hfind.
Qed.

(** C7. The reaction map written by an update of user [user] with emoji
    [emoji]: the user is in the emoji's array; when the arrays of the map
    read are sets (no user twice), the user is in no other emoji's array;
    when none of them is empty, none of the arrays written is empty, an
    array emptied by the removal being deleted; arrays that are non-empty
    sets stay so; hence for every map that a history of reaction updates
    has built from the empty map, the user is in no other emoji's array
    and no array is empty; reacting with one emoji and then with another,
    from the empty map, leaves the second emoji mapped to the user alone
    and no entry for the first; and this map is what [handleReaction]
    stores in the message. *)
Lemma reactionSets_updated user emoji (current : reactionMap) :
  reactionSets current → reactionSets (updatedReactions user emoji current).
Proof.
  intros Hsets e users. rewrite updatedReactions_lookup. case_decide as E.
  - intros [= <-]. split; [|by intros [_ ?]%app_nil].
    destruct (current !! emoji) as [l|] eqn:Hl; simpl;
      [|apply NoDup_singleton].
    destruct (withoutUser user l) as [l'|] eqn:Hw; simpl; [|apply NoDup_singleton].
    destruct (Hsets emoji l Hl) as [Hnd _].
    destruct (withoutUser_set user l l' Hnd Hw) as [Hu Hnd'].
    apply NoDup_app. split_and!; [done| |apply NoDup_singleton].
    intros x Hx ->%list_elem_of_singleton. done.
  - destruct (current !! e) as [l|] eqn:Hl; simpl; [|done].
    destruct (Hsets e l Hl) as [Hnd Hne]. intros Hw. split.
    + by apply (withoutUser_set user l users Hnd) in Hw as [_ ?].
    + intros ->. by apply (withoutUser_nonempty user l Hne).
Qed.

(** Every map that reaction updates build from the empty map holds
    non-empty sets. *)
Lemma reactionSets_afterUpdates history : reactionSets (afterUpdates history).
Proof.
  unfold afterUpdates.
  assert (∀ acc : reactionMap, reactionSets acc →
            reactionSets (foldl (λ acc h, updatedReactions h.1 h.2 acc) acc history))
    as Hgen.
  { induction history as [|h history IH]; intros acc Hacc; simpl; [done|].
    apply IH. by apply reactionSets_updated. }
  apply Hgen. intros e users H. by rewrite lookup_empty in H.
Qed.

Lemma updated_not_elsewhere user emoji (current : reactionMap) :
  (∀ e users, current !! e = Some users → NoDup users) →
  ∀ e users, e ≠ emoji →
    updatedReactions user emoji current !! e = Some users → user ∉ users.
Proof.
  intros Hsets e users He. rewrite updatedReactions_lookup, decide_False by done.
  destruct (current !! e) as [l|] eqn:Hl; simpl; [|done].
  intros Hw. by apply (withoutUser_set user l users (Hsets e l Hl)) in Hw as [? _].
Qed.

Lemma updated_none_empty user emoji (current : reactionMap) :
  (∀ e, current !! e ≠ Some []) →
  ∀ e, updatedReactions user emoji current !! e ≠ Some [].
Proof.
  intros Hfull e. rewrite updatedReactions_lookup. case_decide.
  - intros [= Hnil]. by apply app_nil in Hnil as [_ ?].
  - destruct (current !! e) as [l|] eqn:Hl; simpl; [|done].
    apply withoutUser_nonempty. intros ->. by apply (Hfull e).
Qed.

Theorem reaction_update_single_emoji (user emoji : string) (current : reactionMap) :
  (∃ users, updatedReactions user emoji current !! emoji = Some users ∧ user ∈ users)
  ∧ ((∀ e users, current !! e = Some users → NoDup users) →
     ∀ e users, e ≠ emoji →
       updatedReactions user emoji current !! e = Some users → user ∉ users)
  ∧ ((∀ e, current !! e ≠ Some []) →
     ∀ e, updatedReactions user emoji current !! e ≠ Some [])
  ∧ (reactionSets current → reactionSets (updatedReactions user emoji current))
  ∧ (∀ history, current = afterUpdates history →
     (∀ e users, e ≠ emoji →
        updatedReactions user emoji current !! e = Some users → user ∉ users)
     ∧ (∀ e, updatedReactions user emoji current !! e ≠ Some []))
  ∧ (∀ first, first ≠ emoji →
     updatedReactions user emoji (updatedReactions user first ∅)
     = {[ emoji := [user] ]})
  ∧ (∀ me messageId w messageData,
     uid me = user → user ≠ "" → noFaults w →
     findMessage messageId (messageDocs (backend w)) = Some messageData →
     default ∅ (reactions messageData) = current →
     findMessage messageId
       (messageDocs (backend (exec (handleReaction (Some me) messageId emoji) w)))
     = Some (setReactions (Some (updatedReactions user emoji current)) messageData)).
Proof.
  split_and!.
  - eexists. rewrite updatedReactions_lookup, decide_True by done.
    split; [done|]. apply elem_of_app. right. left.
  - apply updated_not_elsewhere.
  - apply updated_none_empty.
  - apply reactionSets_updated.
  - intros history ->.
    pose proof (reactionSets_afterUpdates history) as Hsets. split.
    + apply updated_not_elsewhere. intros e users H. by apply (Hsets e users).
    + apply updated_none_empty. intros e H. by apply (Hsets e []) in H as [_ ?].
  - intros first Hne. apply map_eq. intros j.
    rewrite !updatedReactions_lookup.
    destruct (decide (j = emoji)) as [->|Hj].
    + rewrite decide_False by done. rewrite lookup_empty. simpl.
      by rewrite lookup_singleton_eq.
    + rewrite lookup_singleton_ne by done.
      destruct (decide (j = first)) as [->|Hj'].
      * rewrite lookup_empty. simpl. unfold withoutUser. simpl.
        by rewrite String.eqb_refl.
      * by rewrite lookup_empty.
  - intros me messageId w messageData <- Hu Hf Hfind <-.
    rewrite (handleReaction_writes me messageId emoji w messageData) by done.
    unfold findMessage in *. revert Hfind.
    generalize (messageDocs (backend w)). intros docs.
    induction docs as [|m docs IH]; simpl; [done|].
    rewrite !filter_cons. simpl.
    destruct (String.eqb_spec (id m) messageId) as [E|E].
    + rewrite !decide_True by done. simpl. by intros [= ->].
    + rewrite !decide_False by done. apply IH.
Qed.

Lemma reaction_update_single_emoji_witness :
  reactionSets ({[ "👍" := ["alice"; "bob"] ]} : reactionMap)
  ∧ updatedReactions "alice" "❤️" {[ "👍" := ["alice"; "bob"] ]} !! "👍" = Some ["bob"]
  ∧ ("alice" ∉ ["bob"])
  ∧ updatedReactions "alice" "❤️" (updatedReactions "alice" "👍" ∅)
    = {[ "❤️" := ["alice"] ]}.
Proof.
  assert (reactionSets ({[ "👍" := ["alice"; "bob"] ]} : reactionMap)) as Hsets.
  { intros e users [<- <-]%lookup_singleton_Some. split; [decide_by_compute|done]. }
  assert (updatedReactions "alice" "❤️" {[ "👍" := ["alice"; "bob"] ]} !! "👍"
          = Some ["bob"]) as Hl by (vm_compute; reflexivity).
  destruct (reaction_update_single_emoji "alice" "❤️" {[ "👍" := ["alice"; "bob"] ]})
    as (_ & Hother & _ & _ & _ & Htwo & _).
  split_and!; [done|done| |].
  - apply (Hother (λ e users H, proj1 (Hsets e users H)) "👍" ["bob"]);
      [vm_compute; discriminate|done].
  - apply Htwo. vm_compute; discriminate.
Defined.

End ReactionFacts.

(** ** The conversation identifier *)

Module ChatIdFacts.
Import ChatId.

Lemma unitLess_total a b : unitLess a b = false → unitLess b a = false → a = b.
Proof.
  unfold unitLess, high.
  destruct (238 <=? a)%N eqn:A1, (a <=? 239)%N eqn:A2,
           (238 <=? b)%N eqn:B1, (b <=? 239)%N eqn:B2; simpl;
    rewrite ?N.ltb_ge, ?N.ltb_lt, ?N.leb_le, ?N.leb_gt in *; try done; lia.
Qed.

Lemma unitLess_asym a b : unitLess a b = true → unitLess b a = false.
Proof.
  unfold unitLess, high.
  destruct (238 <=? a)%N eqn:A1, (a <=? 239)%N eqn:A2,
           (238 <=? b)%N eqn:B1, (b <=? 239)%N eqn:B2; simpl;
    rewrite ?N.ltb_ge, ?N.ltb_lt, ?N.leb_le, ?N.leb_gt in *; try done; lia.
Qed.

Lemma lessUnits_total s t : lessUnits s t = false → lessUnits t s = false → s = t.
Proof.
  revert t. induction s as [|a s IH]; intros [|b t]; simpl; try done.
  rewrite (N.eqb_sym b a). destruct (N.eqb_spec a b) as [->|Hne].
  - intros H1 H2. f_equal. by apply IH.
  - intros H1 H2. destruct Hne. by apply unitLess_total.
Qed.

Lemma lessUnits_asym s t : lessUnits s t = true → lessUnits t s = false.
Proof.
  revert t. induction s as [|a s IH]; intros [|b t]; simpl; try done.
  rewrite (N.eqb_sym b a). destruct (N.eqb_spec a b) as [->|Hne].
  - apply IH.
  - apply unitLess_asym.
Qed.

Lemma bytesOf_inj s t : Js.bytesOf s = Js.bytesOf t → s = t.
Proof.
  unfold Js.bytesOf. intros H.
  rewrite <- (string_of_list_ascii_of_string s), <- (string_of_list_ascii_of_string t).
  f_equal. revert H. generalize (list_ascii_of_string s) (list_ascii_of_string t).
  intros l. induction l as [|a l IH]; intros [|b l']; simpl; try done.
  intros [= Hab Hl]. f_equal; [|by apply IH].
  by rewrite <- (ascii_N_embedding a), <- (ascii_N_embedding b), Hab.
Qed.

(** X1. Both participants compute the same conversation identifier. *)
Theorem chatId_comm (a b : string) : chatId a b = chatId b a.
Proof.
  unfold chatId, sortPair.
  destruct (less b a) eqn:Hba, (less a b) eqn:Hab; simpl; try done.
  - apply lessUnits_asym in Hba. unfold less in Hab. congruence.
  - assert (a = b) as ->; [|done].
    apply bytesOf_inj. by apply lessUnits_total.
Qed.

Lemma plain_cons c s : plain (String c s) ↔ c ≠ "_"%char ∧ plain s.
Proof.
  unfold plain. simpl. rewrite not_elem_of_cons. split; intros [? ?]; split; congruence.
Qed.

Lemma join_inj x x' y y' :
  plain x → plain x' → x +:+ "_" +:+ y = x' +:+ "_" +:+ y' → x = x' ∧ y = y'.
Proof.
  assert (∀ c s t, String c s +:+ t = String c (s +:+ t)) as Hcons by done.
  assert (∀ t, "" +:+ t = t) as Hnil by done.
  revert x'. induction x as [|c x IH]; intros [|c' x'];
    rewrite ?Hnil, ?Hcons, ?Hnil.
  - intros _ _ [= ->]. done.
  - intros _ [Hc _]%plain_cons [= <- _]. done.
  - intros [Hc _]%plain_cons _ [= -> _]. done.
  - intros [_ Hx]%plain_cons [_ Hx']%plain_cons [= -> H].
    destruct (IH x' Hx Hx' H) as [-> ->]. done.
Qed.

(** X2. When no user identifier holds an underscore, two pairs of users
    share a conversation identifier only if they are the same pair, in
    either order. *)
Theorem chatId_pair (a b c d : string) :
  plain a → plain b → plain c → plain d →
  chatId a b = chatId c d → (a = c ∧ b = d) ∨ (a = d ∧ b = c).
Proof.
  intros Ha Hb Hc Hd. unfold chatId, sortPair.
  destruct (less b a), (less d c); simpl; intros H;
    apply join_inj in H as [-> ->]; auto.
Qed.

Lemma chatId_pair_witness :
  plain "alice" ∧ plain "bob" ∧ plain "bob" ∧ plain "alice"
  ∧ chatId "alice" "bob" = chatId "bob" "alice"
  ∧ (("alice" = "bob" ∧ "bob" = "alice") ∨ ("alice" = "alice" ∧ "bob" = "bob")).
Proof.
  assert (plain "alice") as Ha by decide_by_compute.
  assert (plain "bob") as Hb by decide_by_compute.
  assert (chatId "alice" "bob" = chatId "bob" "alice") as H by reflexivity.
  split_and!; [done..|].
  apply (chatId_pair "alice" "bob" "bob" "alice" Ha Hb Hb Ha H).
Defined.

End ChatIdFacts.

(** ** What the message list shows *)

Module DisplayFacts.
Import Display.

(** Every time of day, hour by hour and minute by minute. *)
Lemma formatTime_table_NoDup :
  NoDup ((λ p, formatTime {| hours := p.1; minutes := p.2 |})
           <$> (h ← seq 0 24; m ← seq 0 60; [(h, m)])).
Proof. decide_by_compute. Qed.

Lemma elem_of_times h m :
  h < 24 → m < 60 → (h, m) ∈ (h ← seq 0 24; m ← seq 0 60; [(h, m)]).
Proof.
  intros Hh Hm. apply list_elem_of_bind. exists h. split.
  - apply list_elem_of_bind. exists m. split; [left|].
    apply elem_of_seq. lia.
  - apply elem_of_seq. lia.
Qed.

(** Two entries of the table with the same string are the same entry. *)
Lemma formatTime_table_inj h m h' m' :
  h < 24 → m < 60 → h' < 24 → m' < 60 →
  formatTime {| hours := h; minutes := m |}
  = formatTime {| hours := h'; minutes := m' |} →
  h = h' ∧ m = m'.
Proof.
  intros Hh Hm Hh' Hm' Heq.
  pose proof (elem_of_times _ _ Hh Hm) as [i Hi]%list_elem_of_lookup.
  pose proof (elem_of_times _ _ Hh' Hm') as [j Hj]%list_elem_of_lookup.
  assert (i = j) as ->.
  { eapply NoDup_lookup; [exact formatTime_table_NoDup| |].
    - rewrite list_lookup_fmap, Hi. done.
    - rewrite list_lookup_fmap, Hj. simpl. f_equal. symmetry. exact Heq. }
  split; congruence.
Qed.

(** X3. [formatTime] shows two different times of day differently: from the
    string one can tell the hour and the minute. *)
Theorem formatTime_inj (d d' : Date) :
  hours d < 24 → minutes d < 60 → hours d' < 24 → minutes d' < 60 →
  formatTime d = formatTime d' → d = d'.
Proof.
  destruct d as [h m], d' as [h' m']. simpl. intros Hh Hm Hh' Hm' Heq.
  destruct (formatTime_table_inj h m h' m') as [-> ->]; done.
Qed.

Lemma formatTime_inj_witness :
  let d := {| hours := 0; minutes := 5 |} in
  hours d < 24 ∧ minutes d < 60 ∧ formatTime d = "12:05 AM"
  ∧ (formatTime d = formatTime d → d = d).
Proof.
  intros d. split_and!; [simpl; lia|simpl; lia|reflexivity|].
  apply (formatTime_inj d d); simpl; lia.
Defined.

(** X4. The revised screen sets the hour of every message's date to 9
    before formatting it: the time shown is the minute of sending under
    hour 9 AM, the same for two messages sent at the same minute of
    different hours; a message without a date shows three dots. *)
Theorem timeString_hour_lost (d d' : Date) :
  timeString (Some d) = formatTime {| hours := 9; minutes := minutes d |}
  ∧ (minutes d = minutes d' → timeString (Some d) = timeString (Some d'))
  ∧ (minutes d < 60 → hours d < 24 → hours d ≠ 9 →
     timeString (Some d) ≠ formatTime d)
  ∧ timeString None = "...".
Proof.
  split_and!; [done| |  |done].
  - unfold timeString, setHours. by intros ->.
  - intros Hm Hh Hne Heq. unfold timeString in Heq.
    destruct d as [h m]. simpl in *.
    apply formatTime_table_inj in Heq as [? _]; [congruence|simpl; lia..].
Qed.

Lemma timeString_hour_lost_witness :
  let d := {| hours := 17; minutes := 42 |} in
  minutes d < 60 ∧ hours d < 24 ∧ hours d ≠ 9
  ∧ timeString (Some d) = "9:42 AM" ∧ timeString (Some d) ≠ formatTime d.
Proof.
  intros d.
  destruct (timeString_hour_lost d d) as (_ & _ & Hne & _).
  split_and!; [simpl; lia|simpl; lia|simpl; lia|reflexivity|].
  apply Hne; simpl; lia.
Defined.

End DisplayFacts.

(** ** More on reactions *)

Module ReactionMoreFacts.
Import ChatScreen ReactionFacts.

Lemma foldl_step_lookup (step : reactionMap → string → reactionMap)
    (g : list string → option (list string)) ks (m : reactionMap) j :
  (∀ m k j, step m k !! j = if decide (j = k) then m !! k ≫= g else m !! j) →
  NoDup ks →
  foldl step m ks !! j = if decide (j ∈ ks) then m !! j ≫= g else m !! j.
Proof.
  intros Hstep. revert m. induction ks as [|k ks IH]; intros m Hnd.
  { destruct (decide (j ∈ [])) as [H|?]; [by apply elem_of_nil in H|done]. }
  apply NoDup_cons in Hnd as [Hk Hnd].
  change (foldl step m (k :: ks)) with (foldl step (step m k) ks).
  rewrite IH by done. rewrite !Hstep.
  destruct (decide (j ∈ ks)) as [Hin|Hin].
  - rewrite decide_False by (intros ->; done).
    rewrite decide_True; [done|by right].
  - destruct (decide (j = k)) as [->|Hne].
    + rewrite decide_True; [done|left].
    + rewrite decide_False; [done|]. intros [?|?]%elem_of_cons; done.
Qed.

Lemma revised_removeUser_lookup user (m : reactionMap) k j :
  RevisedReactions.removeUser user m k !! j
  = if decide (j = k) then m !! k ≫= withoutUserAll user else m !! j.
Proof.
  unfold RevisedReactions.removeUser, withoutUserAll.
  destruct (m !! k) as [users|] eqn:Hk; simpl.
  - destruct (length _ =? 0).
    + case_decide as E; [subst; apply lookup_delete_eq|].
      rewrite lookup_delete_ne by done. by apply lookup_insert_ne.
    + case_decide as E; [subst; apply lookup_insert_eq|by apply lookup_insert_ne].
  - case_decide; by subst.
Qed.

Lemma revised_updatedReactions_lookup user emoji (m : reactionMap) j :
  RevisedReactions.updatedReactions user emoji m !! j
  = if decide (j = emoji)
    then Some (default [] (m !! emoji ≫= withoutUserAll user) ++ [user])
    else m !! j ≫= withoutUserAll user.
Proof.
  unfold RevisedReactions.updatedReactions, RevisedReactions.addReaction.
  assert (∀ j, RevisedReactions.removePrevious user m !! j
               = m !! j ≫= withoutUserAll user) as Hrp.
  { intros i. unfold RevisedReactions.removePrevious, keys.
    rewrite (foldl_step_lookup _ (withoutUserAll user));
      [|apply revised_removeUser_lookup|apply NoDup_fst_map_to_list].
    case_decide as Hin; [done|].
    destruct (m !! i) as [l|] eqn:Hi; [|done].
    destruct Hin. apply list_elem_of_fmap. exists (i, l). split; [done|].
    by apply elem_of_map_to_list. }
  destruct (decide (j = emoji)) as [->|Hne].
  - rewrite lookup_alter_eq, lookup_insert_eq. simpl. by rewrite Hrp.
  - rewrite lookup_alter_ne, lookup_insert_ne by done. apply Hrp.
Qed.

Lemma elem_of_strip x user (l : list string) :
  x ∈ List.filter (λ id, negb (String.eqb id user)) l ↔ x ∈ l ∧ x ≠ user.
Proof.
  rewrite !list_elem_of_In, filter_In, negb_true_iff, String.eqb_neq. done.
Qed.

Lemma withoutUserAll_spec user l l' :
  withoutUserAll user l = Some l' →
  l' ≠ [] ∧ ∀ x, x ∈ l' ↔ x ∈ l ∧ x ≠ user.
Proof.
  unfold withoutUserAll.
  destruct (List.filter _ l) as [|y f] eqn:E; simpl; [done|].
  intros [= <-]. split; [done|]. intros x. rewrite <- E. apply elem_of_strip.
Qed.

(** X5. The map written by the revised screen's reaction update, whatever
    map was stored: the user is in the chosen emoji's array, in no other
    emoji's array, and no emoji is left with an empty array. *)
Theorem revised_reaction_invariant (user emoji : string) (current : reactionMap) :
  (∃ users, RevisedReactions.updatedReactions user emoji current !! emoji = Some users
            ∧ user ∈ users)
  ∧ (∀ e users, e ≠ emoji →
       RevisedReactions.updatedReactions user emoji current !! e = Some users →
       user ∉ users)
  ∧ (∀ e, RevisedReactions.updatedReactions user emoji current !! e ≠ Some []).
Proof.
  split_and!.
  - eexists. rewrite revised_updatedReactions_lookup, decide_True by done.
    split; [done|]. apply elem_of_app. right. left.
  - intros e users He. rewrite revised_updatedReactions_lookup, decide_False by done.
    destruct (current !! e) as [l|]; simpl; [|done].
    intros [_ Hw]%withoutUserAll_spec Hin. by apply Hw in Hin as [_ ?].
  - intros e. rewrite revised_updatedReactions_lookup. case_decide.
    + intros [= Hnil]. by apply app_nil in Hnil as [_ ?].
    + destruct (current !! e) as [l|]; simpl; [|done].
      intros [? _]%withoutUserAll_spec. done.
Qed.

Lemma revised_reaction_invariant_witness :
  let stored : reactionMap := {[ "👍" := ["alice"; "alice"] ]} in
  "👍" ≠ "❤️"
  ∧ RevisedReactions.updatedReactions "alice" "❤️" stored !! "👍" = None
  ∧ ∀ users, RevisedReactions.updatedReactions "alice" "❤️" stored !! "👍" = Some users →
             "alice" ∉ users.
Proof.
  intros stored.
  assert ("👍" ≠ "❤️") as Hne by (vm_compute; discriminate).
  destruct (revised_reaction_invariant "alice" "❤️" stored) as (_ & Hother & _).
  split_and!; [done|vm_compute; reflexivity|].
  intros users. by apply Hother.
Defined.

Lemma strip_absent user (l : list string) :
  user ∉ l → List.filter (λ id, negb (String.eqb id user)) l = l.
Proof.
  induction l as [|y l IH]; [done|]. intros [Hy Hl]%not_elem_of_cons. simpl.
  destruct (String.eqb_spec y user) as [->|_]; [done|]. simpl. by rewrite IH.
Qed.

Lemma delete_indexOf_strip user (l : list string) i :
  NoDup l → indexOf user l = Some i →
  delete i l = List.filter (λ id, negb (String.eqb id user)) l.
Proof.
  revert i. induction l as [|y l IH]; intros i Hnd; simpl; [done|].
  apply NoDup_cons in Hnd as [Hy Hnd].
  destruct (String.eqb_spec y user) as [->|Hne]; simpl.
  - intros [= <-]. simpl. by rewrite strip_absent.
  - destruct (indexOf user l) as [j|]; simpl; [|done].
    intros [= <-]. simpl. f_equal. by apply IH.
Qed.

Lemma withoutUser_versions user l :
  NoDup l → l ≠ [] → withoutUser user l = withoutUserAll user l.
Proof.
  intros Hnd Hne. unfold withoutUser, withoutUserAll.
  destruct (indexOf user l) as [i|] eqn:E.
  - by rewrite (delete_indexOf_strip user l i).
  - apply indexOf_None in E. rewrite strip_absent by done.
    destruct l; done.
Qed.

(** X6. On a stored map whose arrays are non-empty sets, the two versions
    of the reaction update write the same map. *)
Theorem reaction_versions_agree (user emoji : string) (current : reactionMap) :
  reactionSets current →
  RevisedReactions.updatedReactions user emoji current
  = updatedReactions user emoji current.
Proof.
  intros Hsets. apply map_eq. intros j.
  rewrite revised_updatedReactions_lookup, updatedReactions_lookup.
  assert (∀ k, current !! k ≫= withoutUserAll user
               = current !! k ≫= withoutUser user) as Hk.
  { intros k. destruct (current !! k) as [l|] eqn:Hl; simpl; [|done].
    destruct (Hsets k l Hl) as [Hnd Hne]. symmetry. by apply withoutUser_versions. }
  by rewrite !Hk.
Qed.

Lemma reaction_versions_agree_witness :
  let stored : reactionMap := {[ "👍" := ["alice"; "bob"] ]} in
  reactionSets stored
  ∧ RevisedReactions.updatedReactions "alice" "❤️" stored
    = updatedReactions "alice" "❤️" stored.
Proof.
  intros stored.
  assert (reactionSets stored) as Hsets.
  { intros e users [<- <-]%lookup_singleton_Some. split; [decide_by_compute|done]. }
  split; [done|]. by apply reaction_versions_agree.
Defined.

Lemma withoutUser_absent user l : user ∉ l → withoutUser user l = Some l.
Proof. intros H%indexOf_None. unfold withoutUser. by rewrite H. Qed.

Lemma indexOf_app_last user l :
  user ∉ l → indexOf user (l ++ [user]) = Some (length l).
Proof.
  induction l as [|y l IH]; simpl.
  - by rewrite String.eqb_refl.
  - intros [Hy Hl]%not_elem_of_cons.
    destruct (String.eqb_spec y user) as [->|_]; [done|]. by rewrite IH.
Qed.

Lemma delete_app_last {A} (l : list A) x : delete (length l) (l ++ [x]) = l.
Proof. induction l as [|y l IH]; simpl; [done|]. by rewrite IH. Qed.

(** X7. The first screen's reaction update is idempotent on maps whose
    arrays hold no user twice: choosing the same emoji again changes
    nothing, so a reaction can be moved but never taken back. *)
Theorem reaction_update_idempotent (user emoji : string) (current : reactionMap) :
  (∀ e users, current !! e = Some users → NoDup users) →
  updatedReactions user emoji (updatedReactions user emoji current)
  = updatedReactions user emoji current.
Proof.
  intros Hsets. apply map_eq. intros j.
  assert (∀ k l, current !! k ≫= withoutUser user = Some l → user ∉ l) as Hout.
  { intros k l. destruct (current !! k) as [l0|] eqn:Hl; simpl; [|done].
    intros Hw. by apply (withoutUser_set user l0 l (Hsets k l0 Hl)) in Hw as [? _]. }
  rewrite (updatedReactions_lookup user emoji (updatedReactions user emoji current)).
  destruct (decide (j = emoji)) as [->|Hne].
  - rewrite !updatedReactions_lookup, !decide_True by done. f_equal. simpl.
    destruct (current !! emoji ≫= withoutUser user) as [l|] eqn:El; simpl.
    + specialize (Hout emoji l El). unfold withoutUser.
      rewrite indexOf_app_last, delete_app_last by done.
      destruct l; simpl; done.
    + unfold withoutUser. simpl. by rewrite String.eqb_refl.
  - rewrite !updatedReactions_lookup, !decide_False by done.
    destruct (current !! j ≫= withoutUser user) as [l|] eqn:El; simpl; [|done].
    apply withoutUser_absent. by apply (Hout j).
Qed.

Lemma reaction_update_idempotent_witness :
  let stored : reactionMap := {[ "👍" := ["alice"; "bob"] ]} in
  (∀ e users, stored !! e = Some users → NoDup users)
  ∧ updatedReactions "alice" "👍" stored !! "👍" = Some ["bob"; "alice"]
  ∧ updatedReactions "alice" "👍" (updatedReactions "alice" "👍" stored)
    = updatedReactions "alice" "👍" stored.
Proof.
  intros stored.
  assert (∀ e users, stored !! e = Some users → NoDup users) as Hsets.
  { intros e users [<- <-]%lookup_singleton_Some. decide_by_compute. }
  split_and!; [done|vm_compute; reflexivity|].
  by apply reaction_update_idempotent.
Defined.

Lemma delete_indexOf_others user v (l : list string) i :
  indexOf user l = Some i → v ≠ user → (v ∈ delete i l ↔ v ∈ l).
Proof.
  revert i. induction l as [|y l IH]; intros i; simpl; [done|].
  destruct (String.eqb_spec y user) as [->|Hne].
  - intros [= <-] Hv. simpl. rewrite elem_of_cons.
    split; [by right|intros [?|?]; done].
  - destruct (indexOf user l) as [j|]; simpl; [|done].
    intros [= <-] Hv. simpl. rewrite !elem_of_cons, (IH j) by done. done.
Qed.

Lemma withoutUser_others user v l :
  v ≠ user → (v ∈ default [] (withoutUser user l) ↔ v ∈ l).
Proof.
  intros Hv. unfold withoutUser.
  destruct (indexOf user l) as [i|] eqn:E; simpl; [|done].
  pose proof (delete_indexOf_others user v l i E Hv) as Hiff.
  destruct (delete i l) as [|y l'] eqn:Ed; simpl; [|done].
  rewrite <- Hiff. done.
Qed.

(** X8. A reaction update of the first screen, on any stored map, leaves
    every other user's reactions as they were: another user is in an
    emoji's array afterwards exactly when they were in it before. *)
Theorem reaction_update_keeps_others
    (user emoji other e : string) (current : reactionMap) :
  other ≠ user →
  other ∈ default [] (updatedReactions user emoji current !! e)
  ↔ other ∈ default [] (current !! e).
Proof.
  intros Hne. rewrite updatedReactions_lookup.
  assert (∀ k, other ∈ default [] (current !! k ≫= withoutUser user)
               ↔ other ∈ default [] (current !! k)) as Hk.
  { intros k. destruct (current !! k) as [l|]; simpl; [|done].
    by apply withoutUser_others. }
  case_decide as E.
  - subst e. simpl. rewrite elem_of_app, list_elem_of_singleton, Hk.
    split; [intros [?|?]; done|by left].
  - apply Hk.
Qed.

Lemma reaction_update_keeps_others_witness :
  let stored : reactionMap := {[ "👍" := ["alice"; "bob"] ]} in
  "bob" ≠ "alice"
  ∧ ("bob" ∈ default [] (updatedReactions "alice" "❤️" stored !! "👍")
     ↔ "bob" ∈ default [] (stored !! "👍")).
Proof.
  intros stored. assert ("bob" ≠ "alice") as H by discriminate.
  split; [done|]. by apply reaction_update_keeps_others.
Defined.

End ReactionMoreFacts.

(** ** The reaction a user sees as their own *)

Module HighlightFacts.
Import ChatScreen ReactionFacts Display.

Lemma includes_true x l : includes x l = true ↔ x ∈ l.
Proof.
  unfold includes. rewrite existsb_exists, list_elem_of_In. split.
  - intros (y & Hy & ->%String.eqb_eq). done.
  - intros H. exists x. split; [done|apply String.eqb_refl].
Qed.

(** X9. After a reaction update on a stored map whose arrays hold no user
    twice, the message row marks as the user's own reaction exactly the
    emoji just chosen, in whatever order the object lists its entries, and
    so does the reaction strip of the context menu. *)
Theorem highlight_follows_update
    (user emoji : string) (current : reactionMap)
    (entries : list (string * list string)) :
  (∀ e users, current !! e = Some users → NoDup users) →
  entries ≡ₚ map_to_list (updatedReactions user emoji current) →
  userReaction (Some user) entries = Some emoji
  ∧ ∀ e, isUserReaction (Some user) (Some (updatedReactions user emoji current)) e
         = bool_decide (e = emoji).
Proof.
  intros Hsets Hperm.
  assert (∀ e users, updatedReactions user emoji current !! e = Some users →
                     user ∈ users → e = emoji) as Honly.
  { intros e users He Hin. destruct (decide (e = emoji)) as [|Hne]; [done|].
    by destruct (updated_not_elsewhere user emoji current Hsets e users Hne He). }
  assert (∃ users, updatedReactions user emoji current !! emoji = Some users
                   ∧ user ∈ users) as (l & Hl & Hin).
  { eexists. rewrite updatedReactions_lookup, decide_True by done.
    split; [done|]. apply elem_of_app. right. left. }
  split.
  - unfold userReaction. simpl.
    destruct (find _ entries) as [[k l']|] eqn:Ef; simpl.
    + apply find_some in Ef as [Hk Hinc]. simpl in Hinc.
      apply includes_true in Hinc. f_equal. apply (Honly k l'); [|done].
      apply elem_of_map_to_list. rewrite <- Hperm. by apply list_elem_of_In.
    + exfalso. assert (In (emoji, l) entries) as Hk.
      { apply list_elem_of_In. rewrite Hperm. by apply elem_of_map_to_list. }
      apply (find_none _ _ Ef) in Hk. simpl in Hk.
      apply includes_true in Hin. congruence.
  - intros e. unfold isUserReaction. simpl.
    destruct (updatedReactions user emoji current !! e) as [l'|] eqn:He.
    + destruct (includes user l') eqn:Hinc.
      * apply includes_true in Hinc. by rewrite bool_decide_eq_true_2 by eauto.
      * symmetry. apply bool_decide_eq_false_2. intros ->.
        assert (l' = l) as -> by congruence.
        apply includes_true in Hin. congruence.
    + symmetry. apply bool_decide_eq_false_2. intros ->. congruence.
Qed.

Lemma highlight_follows_update_witness :
  let stored : reactionMap := {[ "👍" := ["alice"; "bob"] ]} in
  (∀ e users, stored !! e = Some users → NoDup users)
  ∧ userReaction (Some "alice") [("👍", ["bob"]); ("❤️", ["alice"])] = Some "❤️"
  ∧ userReaction (Some "alice") [("❤️", ["alice"]); ("👍", ["bob"])] = Some "❤️".
Proof.
  intros stored.
  assert (∀ e users, stored !! e = Some users → NoDup users) as Hsets.
  { intros e users [<- <-]%lookup_singleton_Some. decide_by_compute. }
  assert (map_to_list (updatedReactions "alice" "❤️" stored)
          ≡ₚ [("👍", ["bob"]); ("❤️", ["alice"])]) as Hperm.
  { apply (bool_decide_unpack _). vm_compute. exact I. }
  split_and!; [done| |].
  - apply (highlight_follows_update "alice" "❤️" stored); [done|by symmetry].
  - apply (highlight_follows_update "alice" "❤️" stored); [done|].
    rewrite Hperm. apply Permutation_swap.
Defined.

End HighlightFacts.

(** ** The context menu's position *)

Module ContextMenuFacts.
Import ContextMenu.

(** X10. In the first screen the menu, 280 wide and 120 high, never passes
    the right edge of the window, and for a touch inside the window it
    never passes the bottom edge; it is moved only when it would pass an
    edge, and a menu moved up starts above the window's top when the touch
    is less than 130 from it. *)
Theorem menu_stays_right_and_bottom (windowWidth windowHeight pageX pageY : Z) :
  let p := handleLongPress windowWidth windowHeight pageX pageY in
  (x p + 280 ≤ windowWidth)%Z
  ∧ ((pageY ≤ windowHeight)%Z → (y p + 120 ≤ windowHeight)%Z)
  ∧ ((pageX + 280 ≤ windowWidth)%Z → x p = pageX)
  ∧ ((pageY + 120 ≤ windowHeight)%Z → y p = pageY)
  ∧ ((windowHeight < pageY + 120)%Z → (pageY < 130)%Z → (y p < 0)%Z).
Proof.
  unfold handleLongPress. simpl.
  destruct (Z.gtb_spec (pageX + 280) windowWidth),
           (Z.gtb_spec (pageY + 120) windowHeight); split_and!; intros; lia.
Qed.

Lemma menu_stays_right_and_bottom_witness :
  (700 ≤ 800)%Z ∧ (800 < 700 + 120)%Z ∧ (100 + 280 ≤ 390)%Z
  ∧ handleLongPress 390 800 100 700 = {| x := 100; y := 570 |}
  ∧ (y (handleLongPress 390 800 100 700) + 120 ≤ 800)%Z.
Proof.
  destruct (menu_stays_right_and_bottom 390 800 100 700) as (_ & Hb & _).
  split_and!; [lia|lia|lia|reflexivity|].
  apply Hb. lia.
Defined.

(** X11. In the revised screen the menu's corner is never right of or
    below the touch, and a box 240 wide and 160 high at that corner never
    passes the right or the bottom edge of the window; a touch far enough
    from both edges leaves the corner at the touch. *)
Theorem revised_menu_inside (windowWidth windowHeight pageX pageY : Z) :
  let p := handleLongPressRevised windowWidth windowHeight pageX pageY in
  (x p ≤ pageX)%Z ∧ (y p ≤ pageY)%Z
  ∧ (x p + 240 ≤ windowWidth)%Z ∧ (y p + 160 ≤ windowHeight)%Z
  ∧ ((pageX + 240 ≤ windowWidth)%Z → (pageY + 160 ≤ windowHeight)%Z →
     p = {| x := pageX; y := pageY |}).
Proof.
  unfold handleLongPressRevised. simpl. split_and!; try lia.
  intros Hx Hy. f_equal; lia.
Qed.

Lemma revised_menu_inside_witness :
  (100 + 240 ≤ 390)%Z ∧ (300 + 160 ≤ 800)%Z
  ∧ handleLongPressRevised 390 800 100 300 = {| x := 100; y := 300 |}.
Proof.
  destruct (revised_menu_inside 390 800 100 300) as (_ & _ & _ & _ & H).
  split_and!; [lia|lia|]. apply H; lia.
Defined.

End ContextMenuFacts.

(** ** The route guard *)

Module RootLayoutFacts.
Import RootLayout.

(** X12. The route guard does nothing before the authentication state is
    known.  After that a signed-out visitor is left alone exactly off the
    tabs, chat and profile screens and a signed-in user exactly on them, so
    that a signed-in user on any other screen, the profile editor included,
    is sent to the user list; and the guard settles: at the place it sends
    to, it asks for no further move. *)
Theorem redirect_settles (authChecked signedIn : bool) (segments : list string) :
  (authChecked = false → redirect authChecked signedIn segments = None)
  ∧ (authChecked = true →
     (redirect authChecked signedIn segments = None
      ↔ (signedIn = true
         ↔ head segments = Some "(tabs)" ∨ head segments = Some "chat"
           ∨ head segments = Some "profile")))
  ∧ (∀ target, redirect authChecked signedIn segments = Some target →
       (target = if signedIn then "/(tabs)/users" else "/")
       ∧ redirect authChecked signedIn (segmentsOf target) = None).
Proof.
  unfold redirect. split_and!.
  - by intros ->.
  - intros ->. simpl.
    destruct signedIn; simpl; repeat case_bool_decide; simpl;
      split; intros; try done; intuition congruence.
  - intros target. destruct authChecked; simpl; [|done].
    destruct signedIn; simpl; repeat case_bool_decide; simpl;
      intros; simplify_eq; done.
Qed.

Lemma redirect_settles_witness :
  redirect true true ["edit-profile"] = Some "/(tabs)/users"
  ∧ redirect true true (segmentsOf "/(tabs)/users") = None.
Proof.
  assert (redirect true true ["edit-profile"] = Some "/(tabs)/users") as H
    by reflexivity.
  split; [done|].
  by destruct (redirect_settles true true ["edit-profile"])
    as (_ & _ & Hs); destruct (Hs _ H).
Defined.

End RootLayoutFacts.

(** ** More on the send path *)

Module SendMoreFacts.
Import ChatScreen SendFacts.

(** A send that passes the guard, whatever the fault plan: the store
    reflects the requests accepted before the first rejection, and the
    buffer is cleared when all four were. *)
Lemma send_progress me userId w :
  Js.trim (message (screen w)) ≠ "" → uid me ≠ "" → userId ≠ "" →
  sending (screen w) = false →
  backend (exec (sendMessage (Some me) userId) w)
  = sendProgress (accepted w) me userId w
  ∧ message (screen (exec (sendMessage (Some me) userId) w))
    = (if accepted w =? 4 then "" else message (screen w))
  ∧ sending (screen (exec (sendMessage (Some me) userId) w)) = false
  ∧ faults (exec (sendMessage (Some me) userId) w)
    = drop (if accepted w =? 4 then 4 else S (accepted w)) (faults w).
Proof.
  intros Ht Hu Hv Hs.
  unfold exec, sendMessage. rewrite sendGuard_pass by done.
  destruct w as [[room docs ts] [msg msgs ld snd] fs tr log]; simpl in *. subst.
  unfold accepted, sendProgress, firstWrite; simpl.
  destruct room as [d|];
    destruct fs as [|[] [|[] [|[] [|[] fs]]]]; simpl; split_and!; reflexivity.
Qed.

Lemma sendGuard_Some cu userId w me :
  sendGuard cu userId w = Some me →
  cu = Some me ∧ Js.trim (message (screen w)) ≠ "" ∧ uid me ≠ "" ∧ userId ≠ ""
  ∧ sending (screen w) = false.
Proof.
  unfold sendGuard. destruct cu as [me'|]; [|done].
  destruct (Js.truthy (Js.trim _)) eqn:E1; simpl; [|done].
  destruct (Js.truthy (uid me')) eqn:E2; simpl; [|done].
  destruct (Js.truthy userId) eqn:E3; simpl; [|done].
  destruct (sending (screen w)) eqn:E4; simpl; [done|].
  intros [= ->]. apply truthy_true in E1, E2, E3. done.
Qed.

(** X13. A send with a buffer that is blank after trimming, or while a send
    is in flight, or with nobody signed in, or without a recipient, does
    nothing: no request, no change of the screen, no log entry. *)
Theorem send_blank_noop (currentUser : option User) (userId : string) (w : World) :
  Js.trim (message (screen w)) = "" ∨ sending (screen w) = true
  ∨ currentUser = None ∨ uid <$> currentUser = Some "" ∨ userId = "" →
  sendMessage currentUser userId w = (Returned (), w).
Proof.
  intros H. unfold sendMessage.
  destruct (sendGuard currentUser userId w) as [me|] eqn:E; [|done].
  apply sendGuard_Some in E as (-> & ? & ? & ? & ?).
  destruct H as [?|[?|[?|[[= ?]|?]]]]; congruence.
Qed.

Lemma send_blank_noop_witness :
  let w := worldOf emptyBackend (composing "   ") [] in
  Js.trim (message (screen w)) = ""
  ∧ sendMessage (Some alice) "bob" w = (Returned (), w).
Proof.
  intros w. assert (Js.trim (message (screen w)) = "") as H by (vm_compute; reflexivity).
  split; [done|]. apply send_blank_noop. by left.
Defined.

(** X14. Whatever the fault plan, a send stores at most one message
    document, and the one it stores has the trimmed, non-empty text of the
    buffer, the current user as sender, and is unread and without
    reactions. *)
Theorem send_appends_trimmed_nonempty
    (currentUser : option User) (userId : string) (w : World) :
  messageDocs (backend (exec (sendMessage currentUser userId) w))
  = messageDocs (backend w)
  ∨ ∃ m, messageDocs (backend (exec (sendMessage currentUser userId) w))
         = messageDocs (backend w) ++ [m]
         ∧ text m = Js.trim (message (screen w)) ∧ text m ≠ ""
         ∧ uid <$> currentUser = Some (senderId m)
         ∧ read m = false ∧ reactions m = None
         ∧ id m ∉ ids (messageDocs (backend w)).
Proof.
  destruct (sendGuard currentUser userId w) as [me|] eqn:E.
  - apply sendGuard_Some in E as (-> & Ht & Hu & Hv & Hs).
    destruct (send_progress me userId w Ht Hu Hv Hs) as (-> & _).
    unfold sendProgress.
    destruct (accepted w) as [|[|[|[|n]]]]; simpl; auto;
      right; eexists; (split_and!; [done..|apply fresh_id_new]).
  - left. unfold exec, sendMessage. by rewrite E.
Qed.

Lemma counterOf_firstWrite me userId w k :
  k ≠ userId →
  unreadCount (firstWrite me userId w) ≫= (λ u, u !! k)
  = counterOf (backend w) k.
Proof.
  intros Hk. unfold firstWrite, counterOf.
  destruct (chatRoomDoc (backend w)) as [d|]; simpl.
  - rewrite lookup_insert_ne by done. unfold spread.
    destruct (unreadCount d); simpl; [done|]. by rewrite lookup_empty.
  - by rewrite lookup_singleton_ne.
Qed.

Lemma recipient_firstWrite me userId w :
  unreadCount (firstWrite me userId w) ≫= (λ u, u !! userId)
  = Some (default 0 (counterOf (backend w) userId) + 1).
Proof.
  unfold firstWrite, counterOf, unreadOf.
  destruct (chatRoomDoc (backend w)) as [d|]; simpl.
  - by rewrite lookup_insert_eq.
  - by rewrite lookup_singleton_eq.
Qed.

(** X15. Whatever the fault plan, a send changes no unread counter but the
    recipient's, and the recipient's either stays or becomes the value it
    had (zero when missing) plus 1. *)
Theorem send_touches_recipient_counter_only
    (currentUser : option User) (userId : string) (w : World) :
  (∀ k, k ≠ userId →
     counterOf (backend (exec (sendMessage currentUser userId) w)) k
     = counterOf (backend w) k)
  ∧ (counterOf (backend (exec (sendMessage currentUser userId) w)) userId
     = counterOf (backend w) userId
     ∨ counterOf (backend (exec (sendMessage currentUser userId) w)) userId
       = Some (default 0 (counterOf (backend w) userId) + 1)).
Proof.
  destruct (sendGuard currentUser userId w) as [me|] eqn:E.
  - apply sendGuard_Some in E as (-> & Ht & Hu & Hv & Hs).
    destruct (send_progress me userId w Ht Hu Hv Hs) as (-> & _).
    unfold sendProgress. split.
    + intros k Hk.
      destruct (accepted w) as [|[|[|[|n]]]]; try done;
        unfold counterOf at 1; simpl; by apply counterOf_firstWrite.
    + destruct (accepted w) as [|[|[|[|n]]]]; auto;
        right; unfold counterOf at 1; simpl; apply recipient_firstWrite.
  - unfold exec, sendMessage. rewrite E. simpl. auto.
Qed.

Lemma send_touches_recipient_counter_only_witness :
  "alice" ≠ "bob"
  ∧ counterOf (backend (exec (sendMessage (Some alice) "bob") aliceComposesAgain)) "alice"
    = Some 3.
Proof.
  assert ("alice" ≠ "bob") as H by discriminate. split; [done|].
  destruct (send_touches_recipient_counter_only (Some alice) "bob" aliceComposesAgain)
    as [Hk _].
  etrans; [by apply Hk|]. vm_compute; reflexivity.
Defined.

End SendMoreFacts.

Module SendFailureFacts.
Import ChatScreen SendFacts SendMoreFacts.

(** X16. When the append of a send is rejected, after the conversation
    record was found and updated, the recipient's counter has already
    been raised although no message was stored, and the buffer is kept;
    sending again, with success, raises the counter again: one message
    stored, two counted. *)
Theorem rejected_append_counts_twice
    (me : User) (userId : string) (w : World) (d : ChatRoomData) (rest : list bool) :
  Js.trim (message (screen w)) ≠ "" → uid me ≠ "" → userId ≠ "" →
  sending (screen w) = false →
  chatRoomDoc (backend w) = Some d →
  faults w = [false; false; true] ++ rest → Forall (λ b, b = false) rest →
  let w1 := exec (sendMessage (Some me) userId) w in
  let w2 := exec (sendMessage (Some me) userId) w1 in
  messageDocs (backend w1) = messageDocs (backend w)
  ∧ counterOf (backend w1) userId = Some (unreadOf d userId + 1)
  ∧ message (screen w1) = message (screen w)
  ∧ counterOf (backend w2) userId = Some (unreadOf d userId + 2)
  ∧ length (messageDocs (backend w2)) = S (length (messageDocs (backend w))).
Proof.
  intros Ht Hu Hv Hs Hroom Hf Hrest w1 w2.
  assert (accepted w = 2) as Hacc.
  { unfold accepted. by rewrite Hf. }
  destruct (send_progress me userId w Ht Hu Hv Hs) as (Hb & Hm & Hs1 & Hf1).
  fold w1 in Hb, Hm, Hs1, Hf1. rewrite Hacc in Hb, Hm, Hf1. simpl in Hb, Hm, Hf1.
  rewrite Hf in Hf1. simpl in Hf1.
  assert (counterOf (backend w1) userId = Some (unreadOf d userId + 1)) as Hc1.
  { rewrite Hb. unfold counterOf, firstWrite. simpl. rewrite Hroom. simpl.
    by rewrite lookup_insert_eq. }
  split_and!; [by rewrite Hb|done|done| |].
  - unfold w2. rewrite send_success; try done; [|by rewrite Hm|by unfold noFaults; rewrite Hf1].
    unfold counterOf. simpl. rewrite Hb. simpl.
    rewrite lookup_insert_eq. f_equal.
    unfold unreadOf at 1, firstWrite. rewrite Hroom. simpl.
    rewrite lookup_insert_eq. simpl. lia.
  - unfold w2. rewrite send_success; try done; [|by rewrite Hm|by unfold noFaults; rewrite Hf1].
    simpl. rewrite Hb. simpl. rewrite length_app. simpl. lia.
Qed.

Lemma rejected_append_counts_twice_witness :
  let w := worldOf {| chatRoomDoc := Some roomWithoutBob; messageDocs := [];
                      serverTime := 100 |}
                   (composing "hi") [false; false; true] in
  Js.trim (message (screen w)) ≠ "" ∧ uid alice ≠ "" ∧ "bob" ≠ ""
  ∧ sending (screen w) = false
  ∧ chatRoomDoc (backend w) = Some roomWithoutBob
  ∧ faults w = [false; false; true] ++ []
  ∧ counterOf (backend (exec (sendMessage (Some alice) "bob")
                          (exec (sendMessage (Some alice) "bob") w))) "bob"
    = Some 2
  ∧ length (messageDocs (backend (exec (sendMessage (Some alice) "bob")
                                    (exec (sendMessage (Some alice) "bob") w)))) = 1.
Proof.
  intros w.
  assert (Js.trim (message (screen w)) ≠ "") as H1 by (vm_compute; discriminate).
  assert (uid alice ≠ "") as H2 by discriminate.
  assert ("bob" ≠ "") as H3 by discriminate.
  assert (sending (screen w) = false) as H4 by reflexivity.
  assert (chatRoomDoc (backend w) = Some roomWithoutBob) as H5 by reflexivity.
  assert (faults w = [false; false; true] ++ []) as H6 by reflexivity.
  destruct (rejected_append_counts_twice alice "bob" w roomWithoutBob []
              H1 H2 H3 H4 H5 H6 (Forall_nil_2 _)) as (_ & _ & _ & Hc & Hl).
  split_and!; [done..| |exact Hl].
  etrans; [exact Hc|]. vm_compute; reflexivity.
Defined.

(** X17. When only the last request of a send is rejected, the message is
    stored and counted but the buffer is not cleared and an existing
    record keeps its old last-message; sending again, with success, stores
    the same text a second time. *)
Theorem rejected_summary_duplicates
    (me : User) (userId : string) (w : World) (d : ChatRoomData) (rest : list bool) :
  Js.trim (message (screen w)) ≠ "" → uid me ≠ "" → userId ≠ "" →
  sending (screen w) = false →
  chatRoomDoc (backend w) = Some d →
  faults w = [false; false; false; true] ++ rest → Forall (λ b, b = false) rest →
  let w1 := exec (sendMessage (Some me) userId) w in
  let w2 := exec (sendMessage (Some me) userId) w1 in
  (∃ m, messageDocs (backend w1) = messageDocs (backend w) ++ [m]
        ∧ text m = Js.trim (message (screen w)))
  ∧ message (screen w1) = message (screen w)
  ∧ lastMessage <$> chatRoomDoc (backend w1) = Some (lastMessage d)
  ∧ (∃ m1 m2, messageDocs (backend w2) = messageDocs (backend w) ++ [m1; m2]
              ∧ text m1 = text m2 ∧ id m1 ≠ id m2).
Proof.
  intros Ht Hu Hv Hs Hroom Hf Hrest w1 w2.
  assert (accepted w = 3) as Hacc.
  { unfold accepted. by rewrite Hf. }
  destruct (send_progress me userId w Ht Hu Hv Hs) as (Hb & Hm & Hs1 & Hf1).
  fold w1 in Hb, Hm, Hs1, Hf1. rewrite Hacc in Hb, Hm, Hf1. simpl in Hb, Hm, Hf1.
  rewrite Hf in Hf1. simpl in Hf1.
  split_and!.
  - eexists. rewrite Hb. simpl. done.
  - done.
  - rewrite Hb. simpl. unfold firstWrite. by rewrite Hroom.
  - unfold w2. rewrite send_success; try done; [|by rewrite Hm|by unfold noFaults; rewrite Hf1].
    simpl. rewrite Hb. simpl. rewrite <- app_assoc. simpl.
    eexists _, _. split; [done|]. split; [by rewrite Hm|]. simpl.
    intros Heq.
    pose proof (fresh_id_new (messageDocs (backend w)
      ++ [newMessage me (message (screen w)) (serverTime (backend w))
            (fresh (ids (messageDocs (backend w))))])) as Hfresh.
    apply Hfresh. rewrite <- Heq. unfold ids. rewrite fmap_app.
    apply elem_of_app. right. left.
Qed.

Lemma rejected_summary_duplicates_witness :
  let w := worldOf {| chatRoomDoc := Some roomWithoutBob; messageDocs := [];
                      serverTime := 100 |}
                   (composing "hi") [false; false; false; true] in
  Js.trim (message (screen w)) ≠ "" ∧ uid alice ≠ "" ∧ "bob" ≠ ""
  ∧ sending (screen w) = false
  ∧ chatRoomDoc (backend w) = Some roomWithoutBob
  ∧ faults w = [false; false; false; true] ++ []
  ∧ text <$> messageDocs (backend (exec (sendMessage (Some alice) "bob")
                                     (exec (sendMessage (Some alice) "bob") w)))
    = ["hi"; "hi"].
Proof.
  intros w.
  assert (Js.trim (message (screen w)) ≠ "") as H1 by (vm_compute; discriminate).
  assert (uid alice ≠ "") as H2 by discriminate.
  assert ("bob" ≠ "") as H3 by discriminate.
  assert (sending (screen w) = false) as H4 by reflexivity.
  assert (chatRoomDoc (backend w) = Some roomWithoutBob) as H5 by reflexivity.
  assert (faults w = [false; false; false; true] ++ []) as H6 by reflexivity.
  destruct (rejected_summary_duplicates alice "bob" w roomWithoutBob []
              H1 H2 H3 H4 H5 H6 (Forall_nil_2 _)) as (_ & _ & _ & m1 & m2 & Hd & _).
  split_and!; [done..|].
  vm_compute; reflexivity.
Defined.

End SendFailureFacts.

(** ** Runs of sends, and opening the conversation afterwards *)

Module RunFacts.
Import ChatScreen SendFacts ReadFacts.

Lemma default_counterOf b user :
  default 0 (counterOf b user)
  = match chatRoomDoc b with Some d => unreadOf d user | None => 0 end.
Proof. unfold counterOf, unreadOf. by destruct (chatRoomDoc b). Qed.

(** One more text typed and sent, no request being rejected. *)
Lemma send_typed me userId t w :
  Js.trim t ≠ "" → uid me ≠ "" → userId ≠ "" →
  sending (screen w) = false → noFaults w →
  let w' := exec (sendMessage (Some me) userId) (typeText t w) in
  sending (screen w') = false ∧ noFaults w'
  ∧ serverTime (backend w') = serverTime (backend w)
  ∧ messageDocs (backend w')
    = messageDocs (backend w)
      ++ [newMessage me t (serverTime (backend w)) (fresh (ids (messageDocs (backend w))))]
  ∧ (∃ d, chatRoomDoc (backend w') = Some d
          ∧ lastMessage d = Some (newLastMessage me t (serverTime (backend w)))
          ∧ unreadOf d userId = default 0 (counterOf (backend w) userId) + 1).
Proof.
  intros Ht Hu Hv Hs Hf w'.
  pose proof (send_success me userId (typeText t w)) as Hw.
  fold w' in Hw. rewrite Hw by done. simpl.
  split_and!; [done| |done|done|].
  - eapply (noFaults_drop 4 w); [|done]. done.
  - rewrite default_counterOf.
    destruct (chatRoomDoc (backend w)) as [d|]; eexists; (split; [done|]); simpl;
      (split; [done|]).
    + eapply unreadOf_insert. done.
    + unfold unreadOf. simpl. by rewrite lookup_singleton_eq.
Qed.

Lemma sendAll_cons me userId t texts w :
  sendAll me userId (t :: texts) w
  = sendAll me userId texts (exec (sendMessage (Some me) userId) (typeText t w)).
Proof. done. Qed.

(** What a run of sends leaves behind, no request being rejected; the
    last three parts carry the induction from one send to the next. *)
Lemma sendAll_run (me : User) (userId : string) (texts : list string) (w : World) :
  uid me ≠ "" → userId ≠ "" → sending (screen w) = false → noFaults w →
  Forall (λ t, Js.trim t ≠ "") texts →
  let w' := sendAll me userId texts w in
  default 0 (counterOf (backend w') userId)
  = default 0 (counterOf (backend w) userId) + length texts
  ∧ (∃ ms, messageDocs (backend w') = messageDocs (backend w) ++ ms
           ∧ text <$> ms = Js.trim <$> texts
           ∧ Forall (λ m, senderId m = uid me ∧ read m = false) ms)
  ∧ (∀ t, last texts = Some t →
       ∃ d, chatRoomDoc (backend w') = Some d
            ∧ lastMessage d = Some (newLastMessage me t (serverTime (backend w))))
  ∧ sending (screen w') = false ∧ noFaults w'
  ∧ serverTime (backend w') = serverTime (backend w).
Proof.
  intros Hu Hv. revert w.
  induction texts as [|t texts IH]; intros w Hs Hf Hts w'.
  { subst w'. simpl. split_and!; [lia| |done..].
    exists []. by rewrite app_nil_r. }
  apply Forall_cons in Hts as [Ht Hts].
  destruct (send_typed me userId t w Ht Hu Hv Hs Hf)
    as (Hs1 & Hf1 & Htime & Hdocs & d & Hd & Hlast & Hcount).
  destruct (IH _ Hs1 Hf1 Hts) as (Hc & (ms & Hms & Htext & Hall) & Hl & Hs2 & Hf2 & Ht2).
  subst w'. rewrite sendAll_cons.
  split_and!; [| | |done|done|congruence].
  - rewrite Hc, default_counterOf, Hd, Hcount. simpl. lia.
  - eexists (_ :: ms). rewrite Hms, Hdocs, <- app_assoc. split; [done|].
    split; [by rewrite !fmap_cons, Htext|]. by apply Forall_cons.
  - intros t' Hlast'. destruct texts as [|t2 texts].
    + simpl in Hlast'. injection Hlast' as <-. exists d. done.
    + rewrite last_cons_cons in Hlast'. destruct (Hl t' Hlast') as (d' & Hd' & Hl').
      exists d'. split; [done|]. by rewrite Hl', Htime.
Qed.

(** X18. A run of sends, each with a text that is non-empty after
    trimming and none with a rejected request: the recipient's counter
    grows by the number of sends, one unread message per text is stored, in
    order and trimmed, and the record's last-message is the last text
    sent. *)
Theorem sendAll_counts (me : User) (userId : string) (texts : list string) (w : World) :
  uid me ≠ "" → userId ≠ "" → sending (screen w) = false → noFaults w →
  Forall (λ t, Js.trim t ≠ "") texts →
  let w' := sendAll me userId texts w in
  default 0 (counterOf (backend w') userId)
  = default 0 (counterOf (backend w) userId) + length texts
  ∧ (∃ ms, messageDocs (backend w') = messageDocs (backend w) ++ ms
           ∧ text <$> ms = Js.trim <$> texts
           ∧ Forall (λ m, senderId m = uid me ∧ read m = false) ms)
  ∧ (∀ t, last texts = Some t →
       ∃ d, chatRoomDoc (backend w') = Some d
            ∧ lastMessage d = Some (newLastMessage me t (serverTime (backend w)))).
Proof.
  intros Hu Hv Hs Hf Hts w'.
  destruct (sendAll_run me userId texts w Hu Hv Hs Hf Hts) as (Hc & Hms & Hl & _).
  done.
Qed.

Lemma sendAll_counts_witness :
  uid alice ≠ "" ∧ "bob" ≠ "" ∧ sending (screen aliceComposes) = false
  ∧ noFaults aliceComposes
  ∧ Forall (λ t, Js.trim t ≠ "") ["one"; " two "; "three"]
  ∧ default 0 (counterOf (backend (sendAll alice "bob" ["one"; " two "; "three"]
                                     aliceComposes)) "bob") = 3.
Proof.
  assert (uid alice ≠ "") as H1 by discriminate.
  assert ("bob" ≠ "") as H2 by discriminate.
  assert (sending (screen aliceComposes) = false) as H3 by reflexivity.
  assert (noFaults aliceComposes) as H4 by apply Forall_nil_2.
  assert (Forall (λ t, Js.trim t ≠ "") ["one"; " two "; "three"]) as H5.
  { repeat apply Forall_cons_2; try apply Forall_nil_2; vm_compute; discriminate. }
  split_and!; [done..|].
  by destruct (sendAll_counts alice "bob" ["one"; " two "; "three"] aliceComposes
                 H1 H2 H3 H4 H5) as [-> _].
Defined.

Lemma elem_of_markAll sel docs m :
  m ∈ markAll sel docs → ∃ m0, m0 ∈ docs ∧ senderId m = senderId m0.
Proof.
  unfold markAll. intros (m0 & -> & Hm0)%list_elem_of_fmap.
  exists m0. split; [done|]. by case_bool_decide.
Qed.

(** X19. Into a conversation that does not exist yet one user sends a
    non-empty run of texts; then the other opens it, no request being
    rejected.  Afterwards every stored message is read, there are as many
    as texts sent, the last-message is flagged read, and the opener's
    unread counter is 0. *)
Theorem open_after_sends
    (me viewer : User) (texts : list string) (w : World) :
  uid me ≠ "" → uid viewer ≠ "" → uid me ≠ uid viewer →
  sending (screen w) = false → noFaults w →
  chatRoomDoc (backend w) = None → messageDocs (backend w) = [] →
  Forall (λ t, Js.trim t ≠ "") texts → texts ≠ [] →
  let w' := exec (openConversation (Some viewer) (uid me))
              (sendAll me (uid viewer) texts w) in
  Forall (λ m, read m = true) (messageDocs (backend w'))
  ∧ length (messageDocs (backend w')) = length texts
  ∧ counterOf (backend w') (uid viewer) = Some 0
  ∧ (chatRoomDoc (backend w') ≫= lastMessage) ≫= (λ l, Some (LastMessage.read l))
    = Some true.
Proof.
  intros Hu Hv Hne Hs Hf Hroom Hdocs Hts Htexts w'.
  destruct (sendAll_run me (uid viewer) texts w Hu Hv Hs Hf Hts)
    as (_ & (ms & Hms & Htext & Hall) & Hl & _ & Hf1 & _).
  set (w1 := sendAll me (uid viewer) texts w) in *.
  rewrite Hdocs in Hms. simpl in Hms.
  assert (∃ t, last texts = Some t) as [t Hlast].
  { destruct (last texts) eqn:E; [by eexists|]. by apply last_None in E. }
  destruct (Hl t Hlast) as (d & Hd & Hdl).
  destruct (deliverSnapshot_spec viewer (uid me) w1 Hv Hu Hf1) as (Hret & Hbd & Hfd).
  assert (w' = exec (markReadEffect (Some viewer) (uid me))
                 (exec (deliverSnapshot (Some viewer) (uid me)) w1)) as Hw'.
  { unfold w', openConversation. by apply exec_seq. }
  destruct (markReadEffect_spec (Some viewer) (uid me) _ Hfd) as (_ & Hb2 & _).
  rewrite <- Hw', Hbd in Hb2. simpl in Hb2. rewrite Hd in Hb2.
  assert (acknowledged (Some viewer) (uid me) (Some d)
          = Some (markSummaryRead (uid viewer) d)) as Hack.
  { unfold acknowledged. simpl.
    apply truthy_true in Hu, Hv. rewrite Hu, Hv. simpl.
    unfold lastMessageUnread. rewrite Hdl. simpl. by rewrite String.eqb_refl. }
  rewrite Hack in Hb2. rewrite Hb2. simpl. split_and!.
  - apply Forall_forall. intros m Hm. eapply marked_all_read; [exact Hm|].
    apply elem_of_markAll in Hm as (m0 & Hm0 & ->).
    rewrite Hms in Hm0. rewrite Forall_forall in Hall.
    destruct (Hall m0 Hm0) as [-> _]. done.
  - rewrite <- (length_fmap id), <- (length_fmap Js.trim texts), <- Htext.
    fold (ids (markAll (ids (List.filter (isUnread (Some viewer)) (queryMessages (backend w1))))
                 (messageDocs (backend w1)))).
    rewrite ids_markAll, Hms. unfold ids. by rewrite !length_fmap.
  - unfold counterOf. simpl. apply lookup_insert_eq.
  - rewrite Hdl. done.
Qed.

Lemma open_after_sends_witness :
  uid alice ≠ "" ∧ uid bob ≠ "" ∧ uid alice ≠ uid bob
  ∧ sending (screen aliceComposes) = false ∧ noFaults aliceComposes
  ∧ chatRoomDoc (backend aliceComposes) = None
  ∧ messageDocs (backend aliceComposes) = []
  ∧ Forall (λ t, Js.trim t ≠ "") ["one"; "two"] ∧ ["one"; "two"] ≠ []
  ∧ counterOf (backend (exec (openConversation (Some bob) "alice")
                          (sendAll alice "bob" ["one"; "two"] aliceComposes))) "bob"
    = Some 0.
Proof.
  assert (uid alice ≠ "") as H1 by discriminate.
  assert (uid bob ≠ "") as H2 by discriminate.
  assert (uid alice ≠ uid bob) as H3 by discriminate.
  assert (sending (screen aliceComposes) = false) as H4 by reflexivity.
  assert (noFaults aliceComposes) as H5 by apply Forall_nil_2.
  assert (Forall (λ t, Js.trim t ≠ "") ["one"; "two"]) as H6.
  { repeat apply Forall_cons_2; try apply Forall_nil_2; vm_compute; discriminate. }
  assert (["one"; "two"] ≠ []) as H7 by discriminate.
  split_and!; [done..|].
  by destruct (open_after_sends alice bob ["one"; "two"] aliceComposes
                 H1 H2 H3 H4 H5 eq_refl eq_refl H6 H7) as (_ & _ & Hc & _).
Defined.

(** The store after the viewer opens a conversation whose last message
    is the other participant's and unread, no request being rejected. *)
Lemma open_backend viewer userId w d l :
  uid viewer ≠ "" → userId ≠ "" → noFaults w →
  chatRoomDoc (backend w) = Some d → lastMessage d = Some l →
  LastMessage.senderId l = userId → LastMessage.read l = false →
  chatRoomDoc (backend (exec (openConversation (Some viewer) userId) w))
  = Some (markSummaryRead (uid viewer) d).
Proof.
  intros Hv Hu Hf Hd Hl Hs Hr.
  destruct (deliverSnapshot_spec viewer userId w Hv Hu Hf) as (Hret & Hbd & Hfd).
  assert (exec (openConversation (Some viewer) userId) w
          = exec (markReadEffect (Some viewer) userId)
              (exec (deliverSnapshot (Some viewer) userId) w)) as ->.
  { unfold openConversation. by apply exec_seq. }
  destruct (markReadEffect_spec (Some viewer) userId _ Hfd) as (_ & -> & _).
  rewrite Hbd. simpl. rewrite Hd. unfold acknowledged. simpl.
  apply truthy_true in Hu, Hv. rewrite Hu, Hv. simpl.
  unfold lastMessageUnread. rewrite Hl, Hs, Hr. simpl. by rewrite String.eqb_refl.
Qed.

(** The participants of the record after a run of sends. *)
Lemma sendAll_participants me userId texts w :
  uid me ≠ "" → userId ≠ "" → sending (screen w) = false → noFaults w →
  Forall (λ t, Js.trim t ≠ "") texts → texts ≠ [] →
  participants <$> chatRoomDoc (backend (sendAll me userId texts w))
  = Some (default [uid me; userId] (participants <$> chatRoomDoc (backend w))).
Proof.
  intros Hu Hv. revert w.
  induction texts as [|t texts IH]; intros w Hs Hf Hts Hne; [done|].
  apply Forall_cons in Hts as [Ht Hts]. rewrite sendAll_cons.
  destruct (send_typed me userId t w Ht Hu Hv Hs Hf) as (Hs1 & Hf1 & _).
  assert (participants <$> chatRoomDoc
            (backend (exec (sendMessage (Some me) userId) (typeText t w)))
          = Some (default [uid me; userId] (participants <$> chatRoomDoc (backend w))))
    as Hp.
  { rewrite send_success by done. simpl. by destruct (chatRoomDoc (backend w)). }
  destruct texts as [|t2 texts]; [done|].
  rewrite IH by done. by rewrite Hp.
Qed.

End RunFacts.

(** ** What the handlers leave alone *)

Module FrameFacts.
Import ChatScreen.

Lemma spread_lookup (o : option (gmap string nat)) k :
  spread o !! k = o ≫= λ u, u !! k.
Proof. destruct o; simpl; [done|apply lookup_empty]. Qed.

Lemma counterOf_marked d viewer ms t k :
  counterOf {| chatRoomDoc := Some (markSummaryRead viewer d);
               messageDocs := ms; serverTime := t |} k
  = if decide (k = viewer) then Some 0 else unreadCount d ≫= λ u, u !! k.
Proof.
  unfold counterOf. simpl. case_decide as E.
  - subst. apply lookup_insert_eq.
  - rewrite lookup_insert_ne by done. apply spread_lookup.
Qed.

(** The summary action, whatever the fault plan: it returns, and the store
    is as before or has the acknowledged record. *)
Lemma markReadEffect_backend cu userId w :
  (markReadEffect cu userId w).1 = Returned ()
  ∧ (backend (exec (markReadEffect cu userId) w) = backend w
     ∨ ∃ u d, uid <$> cu = Some u ∧ chatRoomDoc (backend w) = Some d
              ∧ backend (exec (markReadEffect cu userId) w)
                = {| chatRoomDoc := Some (markSummaryRead u d);
                     messageDocs := messageDocs (backend w);
                     serverTime := serverTime (backend w) |}).
Proof.
  unfold exec, markReadEffect, currentUid.
  destruct w as [[room docs ts] sc fs tr log]; simpl.
  destruct (uid <$> cu) as [u|] eqn:Eu; simpl; [|split; [reflexivity|left; reflexivity]].
  destruct (Js.truthy u && Js.truthy userId); simpl; [|split; [reflexivity|left; reflexivity]].
  unfold markMessagesAsRead, tryCatch, getChatRoom, updateChatRoom, mbind, action_bind,
    request, getBackend, putBackend, withBackend, consoleError, mret, action_ret; simpl.
  destruct room as [d|]; simpl.
  - destruct fs as [|[] [|[] fs]]; simpl;
      try destruct (lastMessageUnread userId d) eqn:El; simpl;
      (split; [reflexivity|]); (left; reflexivity) || (right; by exists u, d).
  - destruct fs as [|[] fs]; simpl; (split; [reflexivity|left; reflexivity]).
Qed.

(** X20. Whatever the fault plan, the summary action never fails towards
    its caller, stores and removes no message, keeps the participants, and
    changes no unread counter except that it may put the viewer's own at
    zero; when the conversation record is missing the store is left as it
    is. *)
Theorem summary_action_frame (currentUser : option User) (userId : string) (w : World) :
  (markReadEffect currentUser userId w).1 = Returned ()
  ∧ messageDocs (backend (exec (markReadEffect currentUser userId) w))
    = messageDocs (backend w)
  ∧ participants <$> chatRoomDoc (backend (exec (markReadEffect currentUser userId) w))
    = participants <$> chatRoomDoc (backend w)
  ∧ (∀ k, counterOf (backend (exec (markReadEffect currentUser userId) w)) k
          = counterOf (backend w) k
          ∨ (uid <$> currentUser = Some k
             ∧ counterOf (backend (exec (markReadEffect currentUser userId) w)) k
               = Some 0))
  ∧ (chatRoomDoc (backend w) = None →
     backend (exec (markReadEffect currentUser userId) w) = backend w).
Proof.
  destruct (markReadEffect_backend currentUser userId w) as [Hret Hb].
  split; [done|].
  destruct Hb as [->|(u & d & Hu & Hd & ->)].
  - split_and!; try done. intros; by left.
  - simpl. rewrite Hd. split_and!; try done.
    intros k. destruct (decide (k = u)) as [->|Hk].
    + right. split; [done|].
      by rewrite counterOf_marked, decide_True.
    + left. rewrite counterOf_marked, decide_False by done.
      unfold counterOf. by rewrite Hd.
Qed.

Lemma summary_action_frame_witness :
  chatRoomDoc (backend aliceComposes) = None
  ∧ backend (exec (markReadEffect (Some bob) "alice") aliceComposes)
    = backend aliceComposes.
Proof.
  assert (chatRoomDoc (backend aliceComposes) = None) as H by reflexivity.
  split; [done|].
  destruct (summary_action_frame (Some bob) "alice" aliceComposes)
    as (_ & _ & _ & _ & Hnone).
  by apply Hnone.
Defined.

Lemma setReactions_erase r m : setReactions None (setReactions r m) = setReactions None m.
Proof. done. Qed.

Lemma updateIn_erase i r docs :
  setReactions None <$> updateIn i (setReactions r) docs = setReactions None <$> docs.
Proof.
  unfold updateIn. rewrite <- list_fmap_compose. apply list_fmap_ext.
  intros _ m _. simpl. by destruct (String.eqb _ _).
Qed.

Lemma updateIn_other i f docs k m :
  docs !! k = Some m → id m ≠ i → updateIn i f docs !! k = Some m.
Proof.
  intros Hk Hne. unfold updateIn. rewrite list_lookup_fmap, Hk. simpl.
  by destruct (String.eqb_spec (id m) i).
Qed.

(** The reaction handler, whatever the fault plan. *)
Lemma handleReaction_backend cu messageId emoji w :
  (handleReaction cu messageId emoji w).1 = Returned ()
  ∧ screen (exec (handleReaction cu messageId emoji) w) = screen w
  ∧ (backend (exec (handleReaction cu messageId emoji) w) = backend w
     ∨ ∃ r, backend (exec (handleReaction cu messageId emoji) w)
            = {| chatRoomDoc := chatRoomDoc (backend w);
                 messageDocs := updateIn messageId (setReactions r)
                                  (messageDocs (backend w));
                 serverTime := serverTime (backend w) |})
  ∧ (cu = None → exec (handleReaction cu messageId emoji) w = w).
Proof.
  unfold exec, handleReaction, currentUid.
  destruct w as [[room docs ts] sc fs tr log]; simpl.
  destruct cu as [me|]; simpl; [|split_and!; try reflexivity; by left].
  destruct (Js.truthy (uid me)); simpl; [|split_and!; try done; by left].
  unfold tryCatch, getMessage, updateMessage, mbind, action_bind,
    request, getBackend, putBackend, withBackend, consoleError, mret, action_ret; simpl.
  destruct (findMessage messageId docs) as [messageData|] eqn:Ef.
  - destruct fs as [|[] [|[] fs]]; simpl; rewrite ?Ef; simpl; rewrite ?Ef; simpl;
      (split_and!; [reflexivity|reflexivity| |done]);
      (left; reflexivity) || (right; eexists; reflexivity).
  - destruct fs as [|[] fs]; simpl; rewrite ?Ef; simpl;
      (split_and!; [reflexivity|reflexivity|left; reflexivity|done]).
Qed.

(** X21. Whatever the fault plan, the first screen's reaction handler never
    fails towards its caller, leaves the conversation record and the screen
    alone, changes nothing of any message but its reactions, and changes
    no message other than the one reacted to; with nobody signed in it
    sends no request at all. *)
Theorem reaction_handler_frame
    (currentUser : option User) (messageId emoji : string) (w : World) :
  (handleReaction currentUser messageId emoji w).1 = Returned ()
  ∧ chatRoomDoc (backend (exec (handleReaction currentUser messageId emoji) w))
    = chatRoomDoc (backend w)
  ∧ screen (exec (handleReaction currentUser messageId emoji) w) = screen w
  ∧ setReactions None
      <$> messageDocs (backend (exec (handleReaction currentUser messageId emoji) w))
    = setReactions None <$> messageDocs (backend w)
  ∧ (∀ k m, messageDocs (backend w) !! k = Some m → id m ≠ messageId →
       messageDocs (backend (exec (handleReaction currentUser messageId emoji) w)) !! k
       = Some m)
  ∧ (currentUser = None →
     exec (handleReaction currentUser messageId emoji) w = w).
Proof.
  destruct (handleReaction_backend currentUser messageId emoji w)
    as (Hret & Hsc & Hb & Hnone).
  split_and!; [done| |done| | |done].
  - destruct Hb as [->|[r ->]]; done.
  - destruct Hb as [->|[r ->]]; [done|]. simpl. apply updateIn_erase.
  - intros k m Hk Hne. destruct Hb as [->|[r ->]]; [done|]. simpl.
    by apply updateIn_other.
Qed.

Lemma reaction_handler_frame_witness :
  let w := afterTwoSends in
  messageDocs (backend w) !! 1
  = Some (newMessage alice "again" 100 "1")
  ∧ "1" ≠ "0"
  ∧ messageDocs (backend (exec (handleReaction (Some bob) "0" "👍") w)) !! 1
    = Some (newMessage alice "again" 100 "1").
Proof.
  intros w.
  assert (messageDocs (backend w) !! 1 = Some (newMessage alice "again" 100 "1")) as H
    by (vm_compute; reflexivity).
  assert ("1" ≠ "0") as Hne by discriminate.
  destruct (reaction_handler_frame (Some bob) "0" "👍" w) as (_ & _ & _ & _ & Hk & _).
  split_and!; [done..|]. by apply Hk.
Defined.

End FrameFacts.

(** ** The revised screen *)

Module RevisedFacts.
Import SendFacts.

(** X22. The revised screen's reaction handler has no [try]: it reads the
    message even with nobody signed in and then writes nothing; a rejected
    read or write is the handler's own failure, with nothing stored and
    nothing logged; and when both requests are accepted for a stored
    message and a signed-in user, every document with that identifier gets
    the updated reaction map. *)
Theorem revised_reaction_handler
    (currentUser : option User) (msgId emoji : string) (w : World) :
  let run := RevisedReactions.handleReaction currentUser msgId emoji w in
  errorLog run.2 = errorLog w
  ∧ (currentUser = None →
     backend run.2 = backend w ∧ trace run.2 = trace w ++ [GetMessage msgId])
  ∧ (head (faults w) = Some true →
     run.1 = Thrown "unavailable" ∧ backend run.2 = backend w)
  ∧ (∀ me msg, currentUser = Some me → uid me ≠ "" →
       findMessage msgId (messageDocs (backend w)) = Some msg →
       (faults w !! 0 ≠ Some true → faults w !! 1 = Some true →
        run.1 = Thrown "unavailable" ∧ backend run.2 = backend w)
       ∧ (noFaults w →
          run.1 = Returned ()
          ∧ messageDocs (backend run.2)
            = updateIn msgId
                (setReactions
                   (Some (RevisedReactions.updatedReactions (uid me) emoji
                            (default ∅ (reactions msg)))))
                (messageDocs (backend w)))).
Proof.
  unfold RevisedReactions.handleReaction.
  destruct w as [[room docs ts] sc fs tr log]; simpl.
  unfold getMessage, updateMessage, mbind, action_bind,
    request, getBackend, putBackend, withBackend, mret, action_ret; simpl.
  split_and!.
  - destruct fs as [|[] [|[] fs]]; simpl; try done;
      destruct (findMessage msgId docs) eqn:Ef; simpl; try done;
      destruct (uid <$> currentUser) as [u|]; simpl; try done;
      destruct (Js.truthy u); simpl; rewrite ?Ef; done.
  - intros ->. simpl.
    destruct fs as [|[] fs]; simpl; try done;
      destruct (findMessage msgId docs); done.
  - destruct fs as [|[] fs]; simpl; done.
  - intros me msg -> Hu%truthy_true Hfind. simpl. split.
    + intros H0 H1. destruct fs as [|[] [|[] fs]]; simpl in *; try done;
        rewrite Hfind; simpl; rewrite Hu; simpl; done.
    + unfold noFaults. simpl. intros Hf.
      next_request Hf; simpl; rewrite Hfind; simpl; rewrite Hu; simpl.
      * by rewrite Hfind.
      * next_request Hf; simpl; by rewrite Hfind.
Qed.

Lemma revised_reaction_handler_witness :
  let w := worldOf (backend afterTwoSends) (composing "") [true] in
  head (faults w) = Some true
  ∧ (RevisedReactions.handleReaction (Some bob) "0" "👍" w).1 = Thrown "unavailable"
  ∧ (ChatScreen.handleReaction (Some bob) "0" "👍" w).1 = Returned ().
Proof.
  intros w. assert (head (faults w) = Some true) as H by reflexivity.
  destruct (revised_reaction_handler (Some bob) "0" "👍" w) as (_ & _ & Hrej & _).
  split_and!; [done| |reflexivity]. by apply Hrej.
Defined.

(** X23. A send of the revised screen with nobody signed in: the
    conversation record is read, then the send fails before any write;
    whatever the fault plan nothing is stored, the buffer is kept, the lock
    is released and the failure is logged. *)
Theorem revised_send_signed_out (userId : string) (w : World) :
  Js.trim (message (screen w)) ≠ "" → sending (screen w) = false →
  let w' := exec (ChatScreenRevised.sendMessage None userId) w in
  backend w' = backend w
  ∧ message (screen w') = message (screen w)
  ∧ sending (screen w') = false
  ∧ trace w' = trace w ++ [GetChatRoom]
  ∧ errorLog w' = errorLog w ++ ["Send error"].
Proof.
  intros Ht%truthy_true Hs.
  unfold exec, ChatScreenRevised.sendMessage. rewrite Ht, Hs. simpl.
  destruct w as [[room docs ts] [msg msgs ld snd] fs tr log]; simpl in *.
  destruct fs as [|[] fs]; simpl; split_and!; reflexivity.
Qed.

Lemma revised_send_signed_out_witness :
  Js.trim (message (screen aliceComposes)) ≠ ""
  ∧ sending (screen aliceComposes) = false
  ∧ backend (exec (ChatScreenRevised.sendMessage None "bob") aliceComposes)
    = backend aliceComposes
  ∧ message (screen (exec (ChatScreenRevised.sendMessage None "bob") aliceComposes))
    = "hi".
Proof.
  assert (Js.trim (message (screen aliceComposes)) ≠ "") as H1
    by (vm_compute; discriminate).
  assert (sending (screen aliceComposes) = false) as H2 by reflexivity.
  destruct (revised_send_signed_out "bob" aliceComposes H1 H2) as (Hb & Hm & _).
  split_and!; done.
Defined.

(** X24. In the revised screen the last-message and the recipient's counter
    of an existing record are written by one request: whatever the fault
    plan, after a send the record is either untouched, with no message
    stored and the buffer kept, or has both the new last-message and the
    counter raised by 1; and the buffer is cleared exactly when the message
    was stored as well. *)
Theorem revised_send_summary_atomic
    (me : User) (userId : string) (w : World) (d : ChatRoomData) :
  Js.trim (message (screen w)) ≠ "" → sending (screen w) = false →
  chatRoomDoc (backend w) = Some d →
  let w' := exec (ChatScreenRevised.sendMessage (Some me) userId) w in
  let updated :=
    {| participants := participants d;
       lastMessage := Some (ChatScreenRevised.newLastMessage me (message (screen w))
                              (serverTime (backend w)));
       unreadCount := Some (<[ userId := unreadOf d userId + 1 ]>
                              (spread (unreadCount d)));
       createdAt := createdAt d |} in
  let sent := ChatScreenRevised.newMsg me (message (screen w))
                (serverTime (backend w)) (fresh (ids (messageDocs (backend w)))) in
  sending (screen w') = false
  ∧ ((chatRoomDoc (backend w') = Some d
      ∧ messageDocs (backend w') = messageDocs (backend w)
      ∧ message (screen w') = message (screen w))
     ∨ (chatRoomDoc (backend w') = Some updated
        ∧ messageDocs (backend w') = messageDocs (backend w)
        ∧ message (screen w') = message (screen w))
     ∨ (chatRoomDoc (backend w') = Some updated
        ∧ messageDocs (backend w') = messageDocs (backend w) ++ [sent]
        ∧ message (screen w') = "")).
Proof.
  intros Ht%truthy_true Hs Hroom.
  unfold exec, ChatScreenRevised.sendMessage. rewrite Ht, Hs. simpl.
  destruct w as [[room docs ts] [msg msgs ld snd] fs tr log]; simpl in *. subst.
  destruct fs as [|[] [|[] [|[] fs]]]; simpl;
    (split; [reflexivity|]);
    (left; split_and!; reflexivity)
    || (right; left; split_and!; reflexivity)
    || (right; right; split_and!; reflexivity).
Qed.

Lemma revised_send_summary_atomic_witness :
  let w := worldOf {| chatRoomDoc := Some roomWithoutBob; messageDocs := [];
                      serverTime := 100 |}
                   (composing "hi") [false; false; true] in
  Js.trim (message (screen w)) ≠ "" ∧ sending (screen w) = false
  ∧ chatRoomDoc (backend w) = Some roomWithoutBob
  ∧ sending (screen (exec (ChatScreenRevised.sendMessage (Some alice) "bob") w)) = false
  ∧ message (screen (exec (ChatScreenRevised.sendMessage (Some alice) "bob") w)) = "hi".
Proof.
  intros w.
  assert (Js.trim (message (screen w)) ≠ "") as H1 by (vm_compute; discriminate).
  assert (sending (screen w) = false) as H2 by reflexivity.
  assert (chatRoomDoc (backend w) = Some roomWithoutBob) as H3 by reflexivity.
  destruct (revised_send_summary_atomic alice "bob" w roomWithoutBob H1 H2 H3)
    as [Hs _].
  split_and!; [done..|exact Hs|reflexivity].
Defined.

End RevisedFacts.

(** ** The conversation list *)

Module ChatsFacts.
Import ChatsScreen.

Lemma insertDoc_elem_of x l y : y ∈ insertDoc x l ↔ y = x ∨ y ∈ l.
Proof.
  induction l as [|z l IH]; simpl.
  - rewrite list_elem_of_singleton, elem_of_nil. tauto.
  - destruct (lastTime z.2 <=? lastTime x.2).
    + by rewrite elem_of_cons.
    + rewrite !elem_of_cons, IH. tauto.
Qed.

Lemma insertDoc_sorted x l :
  StronglySorted newerFirst l → StronglySorted newerFirst (insertDoc x l).
Proof.
  induction 1 as [|z l Hl IH Hz]; simpl.
  - repeat constructor.
  - destruct (Nat.leb_spec (lastTime z.2) (lastTime x.2)) as [Hle|Hlt].
    + constructor; [by constructor|]. constructor; [done|].
      rewrite Forall_forall in Hz |- *. intros y Hy.
      specialize (Hz y Hy). unfold newerFirst in *. lia.
    + constructor; [done|]. apply Forall_forall. intros y Hy.
      apply insertDoc_elem_of in Hy as [->|Hy].
      * unfold newerFirst. lia.
      * rewrite Forall_forall in Hz. by apply Hz.
Qed.

Lemma sortedDocs_sorted docs : StronglySorted newerFirst (sortedDocs docs).
Proof.
  induction docs as [|x docs IH]; simpl; [constructor|]. by apply insertDoc_sorted.
Qed.

Lemma sortedDocs_elem_of docs y : y ∈ sortedDocs docs ↔ y ∈ docs.
Proof.
  induction docs as [|x docs IH]; simpl; [done|].
  by rewrite insertDoc_elem_of, elem_of_cons, IH.
Qed.

Lemma insertDoc_length x l : length (insertDoc x l) = S (length l).
Proof.
  induction l as [|z l IH]; simpl; [done|].
  destruct (lastTime z.2 <=? lastTime x.2); simpl; by rewrite ?IH.
Qed.

Lemma sortedDocs_length docs : length (sortedDocs docs) = length docs.
Proof.
  induction docs as [|x docs IH]; simpl; [done|]. by rewrite insertDoc_length, IH.
Qed.

(** One round either lists the document's row or leaves the rows and the
    total as they are. *)
Lemma processDoc_cases cu users st doc :
  (rooms (processDoc cu users st doc) = rooms st
   ∧ totalUnread (processDoc cu users st doc) = totalUnread st)
  ∨ (∃ other ud, otherParticipant cu doc.2 = Some other ∧ other ≠ ""
       ∧ users !! other = Some ud ∧ head (plan st) ≠ Some true
       ∧ rooms (processDoc cu users st doc) = rooms st ++ [row cu doc.1 doc.2 ud]
       ∧ totalUnread (processDoc cu users st doc)
         = totalUnread st + unreadFor cu doc.2).
Proof.
  unfold processDoc.
  destruct (otherParticipant cu doc.2) as [other|]; [|by left].
  destruct (Js.truthy other) eqn:Et; simpl; [|by left].
  apply SendFacts.truthy_true in Et.
  destruct (plan st) as [|[] rest] eqn:Ep; simpl; try (by left);
    (destruct (users !! other) as [ud|] eqn:Eu; simpl; [|by left]);
    right; exists other, ud; rewrite ?Ep; done.
Qed.

Lemma rowTime_row cu docId data ud : rowTime (row cu docId data ud) = lastTime data.
Proof. done. Qed.

Lemma listing_invariant cu users l st :
  StronglySorted newerFirst l →
  totalUnread st = sum_list_with ChatRoom.unreadCount (rooms st) →
  StronglySorted (λ r1 r2, rowTime r2 ≤ rowTime r1) (rooms st) →
  (∀ r doc, r ∈ rooms st → doc ∈ l → lastTime doc.2 ≤ rowTime r) →
  let st' := foldl (processDoc cu users) st l in
  totalUnread st' = sum_list_with ChatRoom.unreadCount (rooms st')
  ∧ StronglySorted (λ r1 r2, rowTime r2 ≤ rowTime r1) (rooms st')
  ∧ (∀ r, r ∈ rooms st' →
       r ∈ rooms st
       ∨ ∃ doc ud other, doc ∈ l ∧ r = row cu doc.1 doc.2 ud
           ∧ otherParticipant cu doc.2 = Some other ∧ users !! other = Some ud)
  ∧ length (rooms st') ≤ length (rooms st) + length l.
Proof.
  revert st. induction l as [|doc l IH]; intros st Hl Hsum Hsorted Hbound; simpl.
  { split_and!; [done|done|by left|lia]. }
  apply StronglySorted_inv in Hl as [Hl Hdoc]. rewrite Forall_forall in Hdoc.
  destruct (processDoc_cases cu users st doc)
    as [[Hr Ht]|(other & ud & Ho & _ & Hu & _ & Hr & Ht)].
  - destruct (IH (processDoc cu users st doc) Hl) as (H1 & H2 & H3 & H4).
    + by rewrite Hr, Ht.
    + by rewrite Hr.
    + rewrite Hr. intros r d Hrin Hd. apply Hbound; [done|by right].
    + split_and!; [done|done| |rewrite Hr in H4; lia].
      intros r Hrin. destruct (H3 r Hrin) as [Hin|(d & u & o & Hd & ?)].
      * left. by rewrite Hr in Hin.
      * right. exists d, u, o. split; [by right|done].
  - destruct (IH (processDoc cu users st doc) Hl) as (H1 & H2 & H3 & H4).
    + rewrite Hr, Ht, sum_list_with_app, Hsum. simpl. lia.
    + rewrite Hr. apply StronglySorted_app_2; [|done|repeat constructor].
      intros r1 r2 Hr1 ->%list_elem_of_singleton. rewrite rowTime_row.
      apply Hbound; [done|left].
    + rewrite Hr. intros r d [Hrin| ->%list_elem_of_singleton]%elem_of_app Hd.
      * apply Hbound; [done|by right].
      * rewrite rowTime_row. by apply Hdoc.
    + split_and!; [done|done| |rewrite Hr, length_app in H4; simpl in H4; lia].
      intros r Hrin. destruct (H3 r Hrin) as [Hin|(d & u & o & Hd & ?)].
      * rewrite Hr in Hin. apply elem_of_app in Hin as [?| ->%list_elem_of_singleton];
          [by left|].
        right. exists doc, ud, other. split; [left|done].
      * right. exists d, u, o. split; [by right|done].
Qed.

(** X25. Whatever the snapshot, the user documents and the fate of the
    reads, the total in the header is the sum of the unread counts of the
    rows listed: a conversation that is skipped adds nothing to it. *)
Theorem list_total_is_sum_of_rows
    (currentUser : option User) (users : gmap string UserData)
    (docs : list (string * ChatRoomData)) (faultPlan : list bool) :
  totalUnread (listing currentUser users docs faultPlan)
  = sum_list_with ChatRoom.unreadCount
      (rooms (listing currentUser users docs faultPlan)).
Proof.
  unfold listing.
  apply (listing_invariant currentUser users (sortedDocs docs)
           {| rooms := []; totalUnread := 0; plan := faultPlan; console := [] |});
    [apply sortedDocs_sorted|done|constructor|].
  intros r doc Hr. by apply elem_of_nil in Hr.
Qed.

(** X26. The rows are listed newest last-message first; each row comes from
    a conversation of the snapshot that has a participant other than the
    current user whose user document exists; and there are no more rows
    than conversations. *)
Theorem list_rows_newest_first
    (currentUser : option User) (users : gmap string UserData)
    (docs : list (string * ChatRoomData)) (faultPlan : list bool) :
  StronglySorted (λ r1 r2, rowTime r2 ≤ rowTime r1)
    (rooms (listing currentUser users docs faultPlan))
  ∧ (∀ r, r ∈ rooms (listing currentUser users docs faultPlan) →
       ∃ doc ud other, doc ∈ docs ∧ r = row currentUser doc.1 doc.2 ud
         ∧ otherParticipant currentUser doc.2 = Some other
         ∧ Some other ≠ uid <$> currentUser
         ∧ users !! other = Some ud)
  ∧ length (rooms (listing currentUser users docs faultPlan)) ≤ length docs.
Proof.
  unfold listing.
  destruct (listing_invariant currentUser users (sortedDocs docs)
              {| rooms := []; totalUnread := 0; plan := faultPlan; console := [] |})
    as (_ & Hs & Hfrom & Hlen);
    [apply sortedDocs_sorted|done|constructor| |].
  { intros r doc Hr. by apply elem_of_nil in Hr. }
  split_and!; [done| |by rewrite sortedDocs_length in Hlen].
  intros r Hr. destruct (Hfrom r Hr) as [Hnil|(doc & ud & other & Hd & -> & Ho & Hu)].
  { by apply elem_of_nil in Hnil. }
  exists doc, ud, other. split_and!; [by apply sortedDocs_elem_of|done|done| |done].
  unfold otherParticipant in Ho. apply find_some in Ho as [_ Hne].
  apply negb_true_iff, bool_decide_eq_false in Hne. done.
Qed.

Lemma list_rows_newest_first_witness :
  let users : gmap string UserData :=
    {[ "alice" := {| name := Some "Alice"; email := None |} ]} in
  let docs := [("alice_bob", roomAfterTwoSends); ("bob_carol", roomWithoutBob)] in
  row (Some bob) "alice_bob" roomAfterTwoSends {| name := Some "Alice"; email := None |}
    ∈ rooms (listing (Some bob) users docs [])
  ∧ ∃ doc, doc ∈ docs
      ∧ ChatRoom.id (row (Some bob) "alice_bob" roomAfterTwoSends
                       {| name := Some "Alice"; email := None |}) = doc.1.
Proof.
  intros users docs.
  assert (row (Some bob) "alice_bob" roomAfterTwoSends
            {| name := Some "Alice"; email := None |}
          ∈ rooms (listing (Some bob) users docs [])) as Hin.
  { vm_compute. left. }
  split; [done|].
  destruct (list_rows_newest_first (Some bob) users docs []) as (_ & Hfrom & _).
  destruct (Hfrom _ Hin) as (doc & ud & other & Hd & Hr & _).
  exists doc. split; [done|]. by rewrite Hr.
Defined.

End ChatsFacts.

(** ** The list and the chat screen together *)

Module ListAfterChatFacts.
Import ChatScreen SendFacts RunFacts ChatsScreen.

(** The list for a snapshot with one conversation whose first participant
    is the other user. *)
Lemma single_row viewer users docId d other rest ud faultPlan :
  participants d = other :: rest → other ≠ uid viewer → other ≠ "" →
  users !! other = Some ud → head faultPlan ≠ Some true →
  rooms (listing (Some viewer) users [(docId, d)] faultPlan)
  = [row (Some viewer) docId d ud]
  ∧ totalUnread (listing (Some viewer) users [(docId, d)] faultPlan)
    = unreadOf d (uid viewer).
Proof.
  intros Hp Hne Ht%truthy_true Hu Hplan.
  unfold listing. simpl. unfold processDoc, otherParticipant. simpl.
  rewrite Hp. simpl.
  rewrite bool_decide_eq_false_2 by (intros [= ?]; done). simpl.
  rewrite Ht, Hu. simpl.
  destruct faultPlan as [|[] plan']; simpl; done.
Qed.

(** X27. One user sends a non-empty run of texts into a conversation that
    did not exist; the other user's conversation list, built from the
    record as it then is, has one row for it, with as many unread as texts
    sent, the last text as preview, unread, and the same number as total.
    After the other user opens the conversation the row shows no unread,
    the preview is flagged read, and the total is 0. *)
Theorem list_after_sends_and_open
    (me viewer : User) (ud : UserData) (users : gmap string UserData)
    (texts : list string) (w : World) (faultPlan : list bool) :
  uid me ≠ "" → uid viewer ≠ "" → uid me ≠ uid viewer →
  sending (screen w) = false → noFaults w →
  chatRoomDoc (backend w) = None →
  Forall (λ t, Js.trim t ≠ "") texts → texts ≠ [] →
  users !! uid me = Some ud → head faultPlan ≠ Some true →
  let docId := ChatId.chatId (uid me) (uid viewer) in
  let sent := sendAll me (uid viewer) texts w in
  let opened := exec (openConversation (Some viewer) (uid me)) sent in
  (∃ d r, chatRoomDoc (backend sent) = Some d
     ∧ rooms (listing (Some viewer) users [(docId, d)] faultPlan) = [r]
     ∧ ChatRoom.unreadCount r = length texts
     ∧ Some (Preview.text (ChatRoom.lastMessage r)) = Js.trim <$> last texts
     ∧ Preview.senderId (ChatRoom.lastMessage r) = uid me
     ∧ Preview.read (ChatRoom.lastMessage r) = false
     ∧ totalUnread (listing (Some viewer) users [(docId, d)] faultPlan)
       = length texts)
  ∧ (∃ d r, chatRoomDoc (backend opened) = Some d
     ∧ rooms (listing (Some viewer) users [(docId, d)] faultPlan) = [r]
     ∧ ChatRoom.unreadCount r = 0
     ∧ Preview.read (ChatRoom.lastMessage r) = true
     ∧ totalUnread (listing (Some viewer) users [(docId, d)] faultPlan) = 0).
Proof.
  intros Hu Hv Hne Hs Hf Hroom Hts Htexts Hud Hplan docId sent opened.
  destruct (sendAll_run me (uid viewer) texts w Hu Hv Hs Hf Hts)
    as (Hc & _ & Hl & _ & Hf1 & _). fold sent in Hc, Hl, Hf1.
  assert (∃ t, last texts = Some t) as [t Hlast].
  { destruct (last texts) eqn:E; [by eexists|]. by apply last_None in E. }
  destruct (Hl t Hlast) as (d & Hd & Hdl).
  pose proof (sendAll_participants me (uid viewer) texts w Hu Hv Hs Hf Hts Htexts) as Hp.
  fold sent in Hp. rewrite Hd, Hroom in Hp. simpl in Hp. injection Hp as Hp.
  rewrite !default_counterOf, Hd, Hroom in Hc. simpl in Hc.
  split.
  - destruct (single_row viewer users docId d (uid me) [uid viewer] ud faultPlan)
      as [Hrow Htot]; try done.
    exists d, (row (Some viewer) docId d ud).
    split_and!; [done|done| | | | |by rewrite Htot].
    + simpl. unfold unreadFor. simpl. exact Hc.
    + simpl. by rewrite Hdl, Hlast.
    + simpl. by rewrite Hdl.
    + simpl. by rewrite Hdl.
  - pose proof (open_backend viewer (uid me) sent d _ Hv Hu Hf1 Hd Hdl eq_refl eq_refl)
      as Hopen. fold opened in Hopen.
    destruct (single_row viewer users docId (markSummaryRead (uid viewer) d)
                (uid me) [uid viewer] ud faultPlan) as [Hrow Htot]; try done.
    assert (unreadOf (markSummaryRead (uid viewer) d) (uid viewer) = 0) as Hzero.
    { unfold unreadOf. simpl. by rewrite lookup_insert_eq. }
    exists (markSummaryRead (uid viewer) d),
           (row (Some viewer) docId (markSummaryRead (uid viewer) d) ud).
    split_and!; [done|done| | |by rewrite Htot].
    + simpl. unfold unreadFor. simpl. exact Hzero.
    + simpl. by rewrite Hdl.
Qed.

Lemma list_after_sends_and_open_witness :
  let users : gmap string UserData :=
    {[ "alice" := {| name := Some "Alice"; email := None |} ]} in
  uid alice ≠ "" ∧ uid bob ≠ "" ∧ uid alice ≠ uid bob
  ∧ sending (screen aliceComposes) = false ∧ noFaults aliceComposes
  ∧ chatRoomDoc (backend aliceComposes) = None
  ∧ Forall (λ t, Js.trim t ≠ "") ["one"; "two"] ∧ ["one"; "two"] ≠ []
  ∧ users !! uid alice = Some {| name := Some "Alice"; email := None |}
  ∧ head ([] : list bool) ≠ Some true
  ∧ ∃ d r, chatRoomDoc (backend (sendAll alice "bob" ["one"; "two"] aliceComposes))
           = Some d
      ∧ rooms (listing (Some bob) users [("alice_bob", d)] []) = [r]
      ∧ ChatRoom.unreadCount r = 2.
Proof.
  intros users.
  assert (uid alice ≠ "") as H1 by discriminate.
  assert (uid bob ≠ "") as H2 by discriminate.
  assert (uid alice ≠ uid bob) as H3 by discriminate.
  assert (sending (screen aliceComposes) = false) as H4 by reflexivity.
  assert (noFaults aliceComposes) as H5 by apply Forall_nil_2.
  assert (Forall (λ t, Js.trim t ≠ "") ["one"; "two"]) as H6.
  { repeat apply Forall_cons_2; try apply Forall_nil_2; vm_compute; discriminate. }
  assert (["one"; "two"] ≠ []) as H7 by discriminate.
  assert (users !! uid alice = Some {| name := Some "Alice"; email := None |}) as H8
    by (vm_compute; reflexivity).
  assert (head ([] : list bool) ≠ Some true) as H9 by discriminate.
  destruct (list_after_sends_and_open alice bob _ users ["one"; "two"] aliceComposes []
              H1 H2 H3 H4 H5 eq_refl H6 H7 H8 H9)
    as [(d & r & Hd & Hr & Hn & _) _].
  split_and!; [done..|].
  exists d, r. split_and!; [done|exact Hr|exact Hn].
Defined.

End ListAfterChatFacts.
